(** * shccn: line classification, function extraction and CCN of shell scripts

    A shallow embedding of [pkg/shccn/shccn.go].  Go strings are byte
    sequences and are modelled by [string]; Go's [int] is modelled by [Z]
    (every counter below is bounded by the number of bytes of the input, so
    the 64-bit wrap-around is never reached).

    The file has three layers:
    - [Regexp]: the fragment of Go's [regexp] package the program uses,
      given by a syntax of patterns and a derivative-based matcher;
    - [Strings]: the functions of Go's [strings] package the program calls;
    - the program itself, one definition per Go function, under its Go name. *)

From Stdlib Require Import ZArith Ascii List Bool Lia.
From stdpp Require Import gmap strings list.

Local Open Scope Z_scope.

(** ** Characters and conversions *)

(** The double-quote character (byte 34) and the one-character string made
    of it. *)
Definition dquote : ascii := "034"%char.
Definition squote : ascii := "'"%char.
Definition DQ : string := String dquote EmptyString.

Definition chars (s : string) : list ascii := String.list_ascii_of_string s.

(** ** The [regexp] package *)

Module Regexp.

(** Pattern syntax.  [Void] is not written by a programmer; it arises
    as a derivative. *)
Inductive regex : Type :=
| Void
| Eps
| Lit (c : ascii)
| Dot
| Space
| Cat (r1 r2 : regex)
| Alt (r1 r2 : regex)
| Star (r : regex).

(** A compiled pattern.  [bol] records a leading [^]; none of the
    program's patterns has an anchor elsewhere.  Without the multi-line
    flag [^] matches at the beginning of the text only. *)
Record Regexp : Type := MkRegexp { bol : bool; body : regex }.

(** [.] matches any character except newline (flag [s] is off). *)
Definition is_dot (c : ascii) : bool := negb (Ascii.eqb c "010").

(** [\s] is the Perl class [[\t\n\f\r ]]. *)
Definition is_space (c : ascii) : bool :=
  match c with
  | "009" | "010" | "012" | "013" | " " => true
  | _ => false
  end%char.

(** A literal string is the concatenation of its characters. *)
Fixpoint Str (s : string) : regex :=
  match s with
  | EmptyString => Eps
  | String c EmptyString => Lit c
  | String c s' => Cat (Lit c) (Str s')
  end.

Fixpoint nullable (r : regex) : bool :=
  match r with
  | Void | Lit _ | Dot | Space => false
  | Eps | Star _ => true
  | Cat r1 r2 => nullable r1 && nullable r2
  | Alt r1 r2 => nullable r1 || nullable r2
  end.

(** Constructors that absorb [Void] and [Eps], to keep derivatives small. *)
Definition cat (r1 r2 : regex) : regex :=
  match r1, r2 with
  | Void, _ | _, Void => Void
  | Eps, r | r, Eps => r
  | _, _ => Cat r1 r2
  end.

Definition alt (r1 r2 : regex) : regex :=
  match r1, r2 with
  | Void, r | r, Void => r
  | _, _ => Alt r1 r2
  end.

Definition one (b : bool) : regex := if b then Eps else Void.

Fixpoint deriv (c : ascii) (r : regex) : regex :=
  match r with
  | Void | Eps => Void
  | Lit c' => one (Ascii.eqb c' c)
  | Dot => one (is_dot c)
  | Space => one (is_space c)
  | Cat r1 r2 =>
      if nullable r1
      then alt (cat (deriv c r1) r2) (deriv c r2)
      else cat (deriv c r1) r2
  | Alt r1 r2 => alt (deriv c r1) (deriv c r2)
  | Star r1 => cat (deriv c r1) (Star r1)
  end.

(** Does some prefix of [s] match [r]? *)
Fixpoint match_prefix (r : regex) (s : list ascii) : bool :=
  nullable r ||
  match s with
  | [] => false
  | c :: s' => match_prefix (deriv c r) s'
  end.

(** Does some substring of [s] match [r]? *)
Fixpoint search (r : regex) (s : list ascii) : bool :=
  match_prefix r s ||
  match s with
  | [] => false
  | _ :: s' => search r s'
  end.

(** The method [MatchString] of a compiled pattern: reports whether the
    string contains any match of the pattern. *)
Definition MatchString (re : Regexp) (s : string) : bool :=
  if bol re then match_prefix (body re) (chars s)
  else search (body re) (chars s).

(** The words matched exactly by a pattern. *)
Inductive lang : regex -> list ascii -> Prop :=
| lang_eps : lang Eps []
| lang_lit c : lang (Lit c) [c]
| lang_dot c : is_dot c = true -> lang Dot [c]
| lang_space c : is_space c = true -> lang Space [c]
| lang_cat r1 r2 w1 w2 : lang r1 w1 -> lang r2 w2 -> lang (Cat r1 r2) (w1 ++ w2)
| lang_alt_l r1 r2 w : lang r1 w -> lang (Alt r1 r2) w
| lang_alt_r r1 r2 w : lang r2 w -> lang (Alt r1 r2) w
| lang_star_nil r : lang (Star r) []
| lang_star_app r w1 w2 : lang r w1 -> lang (Star r) w2 -> lang (Star r) (w1 ++ w2).

End Regexp.

(** ** The [strings] package *)

Module Strings.

(** The generic algorithm of [strings.NewReplacer(oldnew...).Replace]:
    scan left to right; at each position the first pair, in argument
    order, whose old string is a prefix of the rest is applied and the
    scan resumes after the old string; otherwise the byte is copied.
    [skip] counts the bytes of an old string still to be passed over.
    All old strings of the program are non-empty. *)
Fixpoint find_old (oldnew : list (string * string)) (s : string)
  : option (string * string) :=
  match oldnew with
  | [] => None
  | (old, new) :: rest =>
      if String.prefix old s then Some (old, new) else find_old rest s
  end.

Fixpoint replace_from (oldnew : list (string * string)) (skip : nat) (s : string)
  : string :=
  match s with
  | EmptyString => EmptyString
  | String c s' =>
      match skip with
      | S k => replace_from oldnew k s'
      | O =>
          match find_old oldnew s with
          | Some (old, new) =>
              new +:+ replace_from oldnew (Nat.pred (String.length old)) s'
          | None => String c (replace_from oldnew O s')
          end
      end
  end.

Definition Replacer (oldnew : list (string * string)) (s : string) : string :=
  replace_from oldnew O s.

(** [strings.Replace(s, old, new, -1)] for a non-empty [old]: every
    non-overlapping occurrence, leftmost first. *)
Definition ReplaceAll (s old new : string) : string :=
  Replacer [(old, new)] s.

(** [strings.Contains(s, substr)]. *)
Fixpoint Contains (s substr : string) : bool :=
  String.prefix substr s ||
  match s with
  | EmptyString => false
  | String _ s' => Contains s' substr
  end.

(** [strings.Split(s, sep)] for a non-empty [sep].  [tok] is the token
    being read. *)
Fixpoint split_from (sep : string) (skip : nat) (tok : string) (s : string)
  : list string :=
  match s with
  | EmptyString => [tok]
  | String c s' =>
      match skip with
      | S k => split_from sep k tok s'
      | O =>
          if String.prefix sep s
          then tok :: split_from sep (Nat.pred (String.length sep)) EmptyString s'
          else split_from sep O (tok +:+ String c EmptyString) s'
      end
  end.

Definition Split (s sep : string) : list string := split_from sep O EmptyString s.

(** [strings.Split(s, empty)] explodes [s] into its UTF-8 sequences.  The
    program only asks each piece whether it contains the ASCII quote and
    joins the kept pieces again; a multi-byte sequence contains no ASCII
    byte, and an invalid byte is a piece of its own, so splitting into
    single bytes yields the same joined result. *)
Fixpoint explode (s : string) : list string :=
  match s with
  | EmptyString => []
  | String c s' => String c EmptyString :: explode s'
  end.

(** [strings.Join(elems, empty)]. *)
Fixpoint Join (elems : list string) : string :=
  match elems with
  | [] => EmptyString
  | e :: rest => e +:+ Join rest
  end.

End Strings.

Import Regexp Strings.

(** Sequences and alternatives of several patterns, to write the program's
    patterns the way they read. *)
Fixpoint seq (rs : list regex) : regex :=
  match rs with
  | [] => Eps
  | [r] => r
  | r :: rs' => Cat r (seq rs')
  end.

Fixpoint alts (rs : list regex) : regex :=
  match rs with
  | [] => Void
  | [r] => r
  | r :: rs' => Alt r (alts rs')
  end.

(** ** Package [shccn] *)

(** [type FileContents struct { Name string; Lines []string }] *)
Record FileContents : Type := MkFileContents {
  Name : string;
  Lines : list string
}.

(** The package-level patterns.

    - [functionEndExp]: a closing brace.
    - [functionNotEndExp]: a single or a double quote followed, later on the
      line, by a closing brace.
    - [ccnExp]: one of [if], [while], [for] and the case terminator.
    - [NotCcnExp]: a single or a double quote followed, later on the line,
      by [if], [while] or [for] (six alternatives, none for the case
      terminator).
    - [conditionExp]: one of the two logical connectives. *)
Definition functionEndExp : Regexp := MkRegexp false (Lit "}").

Definition functionNotEndExp : Regexp :=
  MkRegexp false
    (alts [ seq [Star Dot; Lit squote; Star Dot; Lit "}"; Star Dot];
            seq [Star Dot; Lit dquote; Star Dot; Lit "}"; Star Dot] ]).

Definition ccnExp : Regexp :=
  MkRegexp false (alts [Str "if"; Str "while"; Str "for"; Str ";;"]).

Definition NotCcnExp : Regexp :=
  MkRegexp false
    (alts [ seq [Star Dot; Lit squote; Star Dot; Str "if"];
            seq [Star Dot; Lit dquote; Star Dot; Str "if"];
            seq [Star Dot; Lit squote; Star Dot; Str "while"];
            seq [Star Dot; Lit dquote; Star Dot; Str "while"];
            seq [Star Dot; Lit squote; Star Dot; Str "for"];
            seq [Star Dot; Lit dquote; Star Dot; Str "for"] ]).

Definition conditionExp : Regexp :=
  MkRegexp false (alts [Str "&&"; Str "||"]).

(** The patterns compiled inside [isCommentLine] and [isFunctionLine]. *)
Definition commentExp : Regexp :=
  MkRegexp true (seq [Star Space; Lit "#"]).

Definition functionStartExp : Regexp :=
  MkRegexp false (seq [Star Dot; Lit "("; Star Space; Lit ")"; Star Space; Lit "{"]).

(** [isBlankLine]: the line with every space removed has length 0. *)
Definition isBlankLine (line : string) : bool :=
  let tmp := ReplaceAll line " " EmptyString in
  Nat.eqb (String.length tmp) 0.

(** [isCommentLine]. *)
Definition isCommentLine (line : string) : bool :=
  MatchString commentExp line.

(** [removeQuote]: one pass over the pieces of the line with a flag that
    is raised by a single quote and lowered by the next one; a piece is kept
    when the flag is down and the piece is not a quote. *)
Fixpoint removeQuote_loop (flag : bool) (tmp : list string) (splited : list string)
  : list string :=
  match splited with
  | [] => tmp
  | v :: rest =>
      if flag then
        if Contains v "'" then removeQuote_loop false tmp rest
        else removeQuote_loop flag tmp rest
      else if Contains v "'" then removeQuote_loop true tmp rest
      else removeQuote_loop flag (tmp ++ [v]) rest
  end.

Definition removeQuote (line : string) : string :=
  Join (removeQuote_loop false [] (explode line)).

(** [isFunctionLine].  [tmp] is the line with double quotes turned into
    single quotes; it only decides whether [removeQuote] is called, and
    [removeQuote] is called on [line], as in the source. *)
Definition isFunctionLine (line : string) : bool :=
  let tmp := ReplaceAll line DQ "'" in
  let line := if Contains tmp "'" then removeQuote line else line in
  MatchString functionStartExp line.

(** The methods of [FileContents]. *)
Definition GetLines (fc : FileContents) : Z := Z.of_nat (length (Lines fc)).

Definition GetBlankLines (fc : FileContents) : Z :=
  fold_left (fun count v => if isBlankLine v then count + 1 else count) (Lines fc) 0.

(** The loop of [GetCommentLines], with its index [i]: the iteration with
    [i == 0] is skipped. *)
Fixpoint GetCommentLines_loop (i : nat) (lines : list string) (count : Z) : Z :=
  match lines with
  | [] => count
  | v :: rest =>
      if Nat.eqb i 0 then GetCommentLines_loop (S i) rest count
      else if isCommentLine v then GetCommentLines_loop (S i) rest (count + 1)
      else GetCommentLines_loop (S i) rest count
  end.

Definition GetCommentLines (fc : FileContents) : Z :=
  GetCommentLines_loop 0 (Lines fc) 0.

Definition GetCodeLines (fc : FileContents) : Z :=
  let total := GetLines fc in
  let blanks := GetBlankLines fc in
  let comments := GetCommentLines fc in
  total - blanks - comments.

Definition GetFunctionLines (fc : FileContents) : Z :=
  fold_left (fun count v => if isFunctionLine v then count + 1 else count) (Lines fc) 0.

(** [GetCodes]: the lines that are neither comments nor blank, in order. *)
Definition GetCodes (code : list string) : list string :=
  fold_left
    (fun result v =>
       if isCommentLine v then result
       else if isBlankLine v then result
       else result ++ [v])
    code [].

(** [GetFunctionName]. *)
Definition GetFunctionName (line : string) : string :=
  Replacer [ ("function", EmptyString); ("{", EmptyString); ("(", EmptyString);
             (")", EmptyString); (" ", EmptyString) ] line.

(** [GetFunctions].  The loop state is the map being built, the flag and
    the name of the function being read.  Reading a missing key of a Go map
    yields the nil slice, so [result[k] = append(result[k], v)] creates the
    entry when it is missing. *)
Record scan : Type := MkScan {
  result : gmap string (list string);
  flag : bool;
  funcname : string
}.

Definition append_to (m : gmap string (list string)) (k v : string)
  : gmap string (list string) :=
  <[k := default [] (m !! k) ++ [v]]> m.

Definition GetFunctions_step (st : scan) (v : string) : scan :=
  if flag st then
    if MatchString functionEndExp v then
      if MatchString functionNotEndExp v then
        MkScan (append_to (result st) (funcname st) v) (flag st) (funcname st)
      else
        MkScan (result st) false EmptyString
    else
      MkScan (append_to (result st) (funcname st) v) (flag st) (funcname st)
  else if isFunctionLine v then
    MkScan (result st) true (GetFunctionName v)
  else
    MkScan (append_to (result st) "BARE_CODE" v) (flag st) "BARE_CODE".

Definition GetFunctions_init : scan := MkScan ∅ false EmptyString.

Definition GetFunctions (code : list string) : gmap string (list string) :=
  result (fold_left GetFunctions_step code GetFunctions_init).

(** [CalculateCCN].  The inner loop counts the elements of the split line
    that match [conditionExp]; the [continue] of the quote exception leaves
    the iteration before that loop. *)
Definition count_conditions (result : Z) (elements : list string) : Z :=
  fold_left
    (fun result element => if MatchString conditionExp element then result + 1 else result)
    elements result.

Definition CalculateCCN_step (result : Z) (v : string) : Z :=
  if MatchString ccnExp v then
    if MatchString NotCcnExp v then result
    else count_conditions (result + 1) (Split v " ")
  else count_conditions result (Split v " ").

Definition CalculateCCN (code : list string) : Z :=
  fold_left CalculateCCN_step code 1.

(** The rows of the report, as the caller computes them from the file. *)
Definition codeLineCount (body : list string) : Z := Z.of_nat (length body).

(** ** Vocabulary of the statements *)

(** A byte other than the space character U+0020. *)
Definition not_space (c : ascii) : bool := negb (Ascii.eqb " " c).

(** The number of elements of a list that satisfy a test. *)
Definition count {A : Type} (p : A -> bool) (l : list A) : Z :=
  Z.of_nat (length (List.filter p l)).

(** The test of the filter in [GetCodes]: neither a comment nor blank. *)
Definition is_code (v : string) : bool :=
  negb (isCommentLine v) && negb (isBlankLine v).

(** What a line adds to the CCN: at most one for the keywords, and one per
    element of the split line that matches [conditionExp]. *)
Definition keyword_hit (v : string) : Z :=
  if MatchString ccnExp v then 1 else 0.

Definition condition_hits (v : string) : Z :=
  count (MatchString conditionExp) (Split v " ").

(** The lines on which [CalculateCCN] takes its [continue]. *)
Definition quote_excepted (v : string) : bool :=
  MatchString ccnExp v && MatchString NotCcnExp v.

Definition sumZ {A : Type} (f : A -> Z) (l : list A) : Z :=
  fold_right (fun v acc => f v + acc) 0 l.

(** The scanner state reached after a sequence of lines. *)
Definition scan_after (code : list string) : scan :=
  fold_left GetFunctions_step code GetFunctions_init.

(** A terminator line for the scanner: it has a closing brace and the
    quote exception does not apply. *)
Definition is_terminator (v : string) : bool :=
  MatchString functionEndExp v && negb (MatchString functionNotEndExp v).

(** An element of a split line that contains one of the two connectives. *)
Definition has_connective (element : string) : bool :=
  Contains element "&&" || Contains element "||".

Definition tokens_with_connective (v : string) : Z :=
  count has_connective (Split v " ").

(** The number of non-overlapping occurrences of a non-empty string, as
    [strings.Count] counts them.  It is used on the side of the
    specification only, to state what counting every occurrence of a
    connective inside an element would give; the program never calls it. *)
Fixpoint occurrences_from (substr : string) (skip : nat) (s : string) : Z :=
  match s with
  | EmptyString => 0
  | String _ s' =>
      match skip with
      | S k => occurrences_from substr k s'
      | O =>
          if String.prefix substr s
          then 1 + occurrences_from substr (Nat.pred (String.length substr)) s'
          else occurrences_from substr O s'
      end
  end.

Definition spec_connective_occurrences (v : string) : Z :=
  sumZ (fun element => occurrences_from "&&" O element + occurrences_from "||" O element)
       (Split v " ").

(** Lines used as concrete inputs below. *)
Definition echo_quoted_decl : string := "echo " +:+ DQ +:+ "foo() {" +:+ DQ.
Definition echo_quoted_case : string := "echo " +:+ DQ +:+ ";;" +:+ DQ.

(** The pass of [removeQuote] read on the bytes of the line: [flag] is
    up between an opening quote and the next quote. *)
Fixpoint strip_quoted (flag : bool) (l : list ascii) : list ascii :=
  match l with
  | [] => []
  | c :: l' =>
      if Ascii.eqb squote c then strip_quoted (negb flag) l'
      else if flag then strip_quoted flag l'
      else c :: strip_quoted flag l'
  end.

(** The one-character string made of the single quote. *)
Definition SQ : string := String squote EmptyString.

(** The bytes that [GetFunctionName] copies when the word [function] does
    not occur: all but the space, the two parentheses and the opening brace. *)
Definition name_char (c : ascii) : bool :=
  negb (Ascii.eqb "{" c) && negb (Ascii.eqb "(" c) &&
  negb (Ascii.eqb ")" c) && negb (Ascii.eqb " " c).

(** The map after the lines [body] have been appended under the key [k]. *)
Definition add_body (m : gmap string (list string)) (k : string) (body : list string)
  : gmap string (list string) :=
  match body with
  | [] => m
  | _ :: _ => <[k := default [] (m !! k) ++ body]> m
  end.

(** What holds of every bucket of the map built from [code]: it is not
    empty, its lines are lines of [code], and its key is [BARE_CODE] or the
    name taken from a function line of [code]. *)
Definition bucket_ok (code : list string) (k : string) (body : list string) : Prop :=
  body <> [] /\
  Forall (fun v => In v code) body /\
  (k = "BARE_CODE" \/
   exists d, In d code /\ isFunctionLine d = true /\ k = GetFunctionName d).

(** What one line adds to the result of [CalculateCCN]. *)
Definition line_increment (v : string) : Z :=
  if quote_excepted v then 0 else keyword_hit v + tokens_with_connective v.

(** The bytes of a line after its leading white space. *)
Fixpoint skip_space (l : list ascii) : list ascii :=
  match l with
  | [] => []
  | c :: l' => if is_space c then skip_space l' else l
  end.

(** A quote stands before a closing brace, with no newline between. *)
Definition quote_before_brace (l : list ascii) : Prop :=
  exists a q b c,
    l = a ++ q :: b ++ "}"%char :: c /\
    (q = squote \/ q = dquote) /\
    Forall (fun x => is_dot x = true) b.

(** The number of body lines held by a map of buckets, all buckets
    together. *)
Definition total_lines (m : gmap string (list string)) : Z :=
  sumZ (fun kv : string * list string => Z.of_nat (length (snd kv))) (map_to_list m).

(** * Facts about the pattern matcher *)

Section RegexpFacts.

Lemma lang_Void_inv w : lang Void w -> False.
Proof. inversion 1. Qed.

Lemma lang_Eps_inv w : lang Eps w -> w = [].
Proof. inversion 1; reflexivity. Qed.

Lemma lang_Lit_inv c w : lang (Lit c) w -> w = [c].
Proof. inversion 1; reflexivity. Qed.

Lemma lang_Cat_inv r1 r2 w :
  lang (Cat r1 r2) w -> exists w1 w2, w = w1 ++ w2 /\ lang r1 w1 /\ lang r2 w2.
Proof. inversion 1; subst; eauto. Qed.

Lemma lang_Alt_inv r1 r2 w : lang (Alt r1 r2) w -> lang r1 w \/ lang r2 w.
Proof. inversion 1; subst; auto. Qed.

Lemma lang_Eps_Cat r w : lang r w -> lang (Cat Eps r) w.
Proof. intros H. change w with ([] ++ w). constructor; [constructor | exact H]. Qed.

Lemma lang_Cat_Eps r w : lang r w -> lang (Cat r Eps) w.
Proof. intros H. rewrite <- (app_nil_r w). constructor; [exact H | constructor]. Qed.

Lemma nullable_lang r : nullable r = true <-> lang r [].
Proof.
  induction r as [| | c | | | r1 IH1 r2 IH2 | r1 IH1 r2 IH2 | r IH]; simpl;
    split; intros H; try discriminate; try (constructor; fail);
    try (inversion H; fail).
  - apply andb_true_iff in H as [H1 H2].
    change (@nil ascii) with (@nil ascii ++ []).
    constructor; [apply IH1 | apply IH2]; assumption.
  - apply lang_Cat_inv in H as (w1 & w2 & E & H1 & H2).
    symmetry in E. apply app_eq_nil in E as [-> ->].
    apply andb_true_iff. split; [apply IH1 | apply IH2]; assumption.
  - apply orb_true_iff in H as [H | H];
      [apply lang_alt_l, IH1 | apply lang_alt_r, IH2]; assumption.
  - apply orb_true_iff.
    apply lang_Alt_inv in H as [H | H]; [left; apply IH1 | right; apply IH2];
      assumption.
Qed.

Lemma lang_cat r1 r2 w : lang (cat r1 r2) w <-> lang (Cat r1 r2) w.
Proof.
  split.
  - intros H.
    destruct r1, r2; simpl in H;
      first [ exact H | apply lang_Eps_Cat, H | apply lang_Cat_Eps, H
            | exfalso; exact (lang_Void_inv _ H) ].
  - intros H. apply lang_Cat_inv in H as (w1 & w2 & -> & H1 & H2).
    destruct r1, r2; simpl;
      try (exfalso; first [exact (lang_Void_inv _ H1) | exact (lang_Void_inv _ H2)]);
      try (apply lang_Eps_inv in H1 as ->; exact H2);
      try (apply lang_Eps_inv in H2 as ->; rewrite app_nil_r; exact H1);
      constructor; assumption.
Qed.

Lemma lang_alt r1 r2 w : lang (alt r1 r2) w <-> lang r1 w \/ lang r2 w.
Proof.
  split.
  - intros H.
    destruct r1, r2; simpl in H;
      first [ apply lang_Alt_inv in H; exact H | left; exact H | right; exact H ].
  - intros [H | H]; destruct r1, r2; simpl;
      first [ exact H | exfalso; exact (lang_Void_inv _ H)
            | apply lang_alt_l, H | apply lang_alt_r, H ].
Qed.

Lemma lang_one b w : lang (one b) w <-> b = true /\ w = [].
Proof.
  destruct b; simpl; split.
  - intros H. apply lang_Eps_inv in H. auto.
  - intros [_ ->]. constructor.
  - intros H. destruct (lang_Void_inv _ H).
  - intros [H _]. discriminate.
Qed.

(** A non-empty word of a starred pattern starts with a non-empty word of
    the pattern. *)
Lemma lang_Star_cons_inv r c w :
  lang (Star r) (c :: w) ->
  exists w1 w2, w = w1 ++ w2 /\ lang r (c :: w1) /\ lang (Star r) w2.
Proof.
  intros H. remember (Star r) as sr eqn:Esr. remember (c :: w) as cw eqn:Ecw.
  revert w Ecw.
  induction H as [ | | | | | | | | r' w1 w2 H1 _ H2 IH2 ]; intros w0 Ecw;
    try discriminate.
  injection Esr as ->.
  destruct w1 as [| c1 w1].
  - simpl in Ecw. exact (IH2 eq_refl _ Ecw).
  - simpl in Ecw. injection Ecw as -> <-. eauto.
Qed.

Lemma deriv_lang r : forall c w, lang (deriv c r) w <-> lang r (c :: w).
Proof.
  induction r as [| | c' | | | r1 IH1 r2 IH2 | r1 IH1 r2 IH2 | r IH];
    intros c w; simpl.
  - split; inversion 1.
  - split; inversion 1.
  - rewrite lang_one. split.
    + intros [E ->]. apply Ascii.eqb_eq in E as ->. constructor.
    + intros H. apply lang_Lit_inv in H. injection H as -> ->.
      split; [apply Ascii.eqb_refl | reflexivity].
  - rewrite lang_one. split.
    + intros [E ->]. constructor; exact E.
    + inversion 1; subst; auto.
  - rewrite lang_one. split.
    + intros [E ->]. constructor; exact E.
    + inversion 1; subst; auto.
  - assert (Hcat : lang (cat (deriv c r1) r2) w <->
                   exists w1 w2, w = w1 ++ w2 /\ lang r1 (c :: w1) /\ lang r2 w2).
    { rewrite lang_cat. split.
      - intros H. apply lang_Cat_inv in H as (w1 & w2 & -> & H1 & H2).
        apply IH1 in H1. eauto.
      - intros (w1 & w2 & -> & H1 & H2). constructor; [apply IH1 |]; assumption. }
    destruct (nullable r1) eqn:N.
    + rewrite lang_alt, Hcat, IH2. split.
      * intros [(w1 & w2 & -> & H1 & H2) | H].
        -- change (c :: w1 ++ w2) with ((c :: w1) ++ w2). constructor; assumption.
        -- change (c :: w) with ([] ++ c :: w).
           constructor; [apply nullable_lang, N | exact H].
      * intros H. apply lang_Cat_inv in H as (w1 & w2 & E & H1 & H2).
        destruct w1 as [| c1 w1]; simpl in E.
        -- right. rewrite E. exact H2.
        -- injection E as <- ->. left. eauto.
    + rewrite Hcat. split.
      * intros (w1 & w2 & -> & H1 & H2).
        change (c :: w1 ++ w2) with ((c :: w1) ++ w2). constructor; assumption.
      * intros H. apply lang_Cat_inv in H as (w1 & w2 & E & H1 & H2).
        destruct w1 as [| c1 w1]; simpl in E.
        -- apply nullable_lang in H1. congruence.
        -- injection E as <- ->. eauto.
  - rewrite lang_alt, IH1, IH2. split.
    + intros [H | H]; [apply lang_alt_l | apply lang_alt_r]; exact H.
    + apply lang_Alt_inv.
  - rewrite lang_cat. split.
    + intros H. apply lang_Cat_inv in H as (w1 & w2 & -> & H1 & H2).
      apply IH in H1.
      change (c :: w1 ++ w2) with ((c :: w1) ++ w2). constructor; assumption.
    + intros H. apply lang_Star_cons_inv in H as (w1 & w2 & -> & H1 & H2).
      constructor; [apply IH |]; assumption.
Qed.

(** The matcher is sound and complete for [lang]. *)
Lemma match_prefix_spec s : forall r,
  match_prefix r s = true <-> exists w rest, s = w ++ rest /\ lang r w.
Proof.
  induction s as [| c s IH]; intros r; simpl.
  - rewrite orb_false_r, nullable_lang. split.
    + intros H. exists [], []. auto.
    + intros (w & rest & E & H). symmetry in E.
      apply app_eq_nil in E as [-> _]. exact H.
  - rewrite orb_true_iff, nullable_lang, IH. split.
    + intros [H | (w & rest & -> & H)].
      * exists [], (c :: s). auto.
      * exists (c :: w), rest. split; [reflexivity | apply deriv_lang, H].
    + intros (w & rest & E & H). destruct w as [| c1 w]; simpl in E.
      * left. exact H.
      * injection E as <- ->. right. exists w, rest.
        split; [reflexivity | apply deriv_lang, H].
Qed.

Lemma search_nil r : search r [] = match_prefix r [].
Proof. unfold search. apply orb_false_r. Qed.

Lemma search_cons r c s :
  search r (c :: s) = match_prefix r (c :: s) || search r s.
Proof. reflexivity. Qed.

Lemma search_spec r s :
  search r s = true <-> exists pre w post, s = pre ++ w ++ post /\ lang r w.
Proof.
  induction s as [| c s IH].
  - rewrite search_nil, match_prefix_spec. split.
    + intros (w & rest & E & H). exists [], w, rest. auto.
    + intros (pre & w & post & E & H). symmetry in E.
      apply app_eq_nil in E as [-> E]. simpl in *. eauto.
  - rewrite search_cons, orb_true_iff, match_prefix_spec, IH. split.
    + intros [(w & rest & E & H) | (pre & w & post & -> & H)].
      * exists [], w, rest. auto.
      * exists (c :: pre), w, post. auto.
    + intros (pre & w & post & E & H). destruct pre as [| c1 pre]; simpl in E.
      * left. eauto.
      * injection E as <- ->. right. eauto.
Qed.

End RegexpFacts.

(** * Facts about the [strings] functions *)

Section StringsFacts.

Lemma prefix_empty s : String.prefix EmptyString s = true.
Proof. destruct s; reflexivity. Qed.

Lemma prefix_single c a s :
  String.prefix (String c EmptyString) (String a s) = Ascii.eqb c a.
Proof.
  simpl. destruct (ascii_dec c a) as [-> | N].
  - rewrite prefix_empty, Ascii.eqb_refl. reflexivity.
  - symmetry. apply Ascii.eqb_neq, N.
Qed.

Lemma chars_cons a s : chars (String a s) = a :: chars s.
Proof. reflexivity. Qed.

Lemma length_chars s : String.length s = length (chars s).
Proof. induction s as [| a s IH]; simpl; [reflexivity | rewrite IH; reflexivity]. Qed.

Lemma chars_nil s : chars s = [] <-> s = EmptyString.
Proof. destruct s; simpl; split; intros H; congruence. Qed.

(** Replacing every space by the empty string keeps exactly the bytes
    that are not spaces. *)
Lemma chars_ReplaceAll_space line :
  chars (ReplaceAll line " " EmptyString) = List.filter not_space (chars line).
Proof.
  unfold ReplaceAll, Replacer.
  induction line as [| a line IH]; [reflexivity |].
  cbn [replace_from find_old]. rewrite prefix_single, chars_cons.
  cbn [List.filter]. unfold not_space at 1.
  destruct (Ascii.eqb " " a); cbn [negb].
  - exact IH.
  - rewrite chars_cons, IH. reflexivity.
Qed.

Lemma filter_not_space_nil l :
  List.filter not_space l = [] <-> Forall (eq " "%char) l.
Proof.
  induction l as [| a l IH]; simpl.
  - split; auto.
  - unfold not_space at 1. destruct (Ascii.eqb_spec " " a) as [E | N]; simpl.
    + rewrite IH. split; intros H; [constructor; assumption | inversion H; assumption].
    + split; intros H; [discriminate | inversion H; contradiction].
Qed.

End StringsFacts.

(** * Facts about the line classifiers *)

Section ClassifierFacts.

Lemma isBlankLine_filter line :
  isBlankLine line = true <-> List.filter not_space (chars line) = [].
Proof.
  unfold isBlankLine. cbv zeta.
  rewrite Nat.eqb_eq, length_chars, chars_ReplaceAll_space.
  apply length_zero_iff_nil.
Qed.

Lemma lang_Star_Space w :
  lang (Star Space) w <-> Forall (fun c => is_space c = true) w.
Proof.
  split.
  - intros H. remember (Star Space) as r eqn:E.
    induction H as [ | | | | | | | | r w1 w2 H1 _ _ IH2 ]; try discriminate.
    + constructor.
    + injection E as ->. inversion H1; subst. constructor; [assumption | auto].
  - induction 1 as [| c w Hc _ IH].
    + constructor.
    + change (c :: w) with ([c] ++ w). constructor; [constructor; exact Hc | exact IH].
Qed.

(** A line matches the comment pattern exactly when, after white space
    only, it has a hash sign. *)
Lemma isCommentLine_spec line :
  isCommentLine line = true <->
  exists ws rest,
    chars line = ws ++ "#"%char :: rest /\ Forall (fun c => is_space c = true) ws.
Proof.
  unfold isCommentLine, MatchString, commentExp. cbn [bol body seq].
  rewrite match_prefix_spec. split.
  - intros (w & rest & E & H).
    apply lang_Cat_inv in H as (w1 & w2 & -> & H1 & H2).
    apply lang_Lit_inv in H2 as ->. apply lang_Star_Space in H1.
    exists w1, rest. rewrite E, <- app_assoc. auto.
  - intros (ws & rest & E & H).
    exists (ws ++ ["#"%char]), rest. rewrite <- app_assoc. split; [exact E |].
    constructor; [apply lang_Star_Space, H | constructor].
Qed.

(** A comment line is never blank: it has a hash sign. *)
Lemma isCommentLine_not_blank line :
  isCommentLine line = true -> isBlankLine line = false.
Proof.
  intros H. apply isCommentLine_spec in H as (ws & rest & E & _).
  destruct (isBlankLine line) eqn:B; [| reflexivity].
  apply isBlankLine_filter, filter_not_space_nil in B.
  rewrite E in B. apply Forall_app in B as [_ B]. inversion B; discriminate.
Qed.

Lemma search_Lit c s : search (Lit c) s = true <-> In c s.
Proof.
  rewrite search_spec. split.
  - intros (pre & w & post & -> & H). apply lang_Lit_inv in H as ->.
    apply in_or_app. right. left. reflexivity.
  - intros H. apply in_split in H as (pre & post & ->).
    exists pre, [c], post. split; [reflexivity | constructor].
Qed.

(** [functionEndExp] matches the lines that contain a closing brace. *)
Lemma functionEndExp_spec line :
  MatchString functionEndExp line = true <-> In "}"%char (chars line).
Proof. apply search_Lit. Qed.

End ClassifierFacts.

(** * File-level counts *)

Section Counts.

Lemma count_nil {A} (p : A -> bool) : count p [] = 0.
Proof. reflexivity. Qed.

Lemma count_cons {A} (p : A -> bool) v l :
  count p (v :: l) = (if p v then 1 else 0) + count p l.
Proof. unfold count. simpl. destruct (p v); simpl length; lia. Qed.

Lemma count_app {A} (p : A -> bool) l1 l2 :
  count p (l1 ++ l2) = count p l1 + count p l2.
Proof. unfold count. rewrite List.filter_app, length_app. lia. Qed.

Lemma count_nonneg {A} (p : A -> bool) l : 0 <= count p l.
Proof. unfold count. lia. Qed.

(** A counting loop adds the number of hits to its initial value. *)
Lemma count_fold {A} (p : A -> bool) l : forall c,
  fold_left (fun count v => if p v then count + 1 else count) l c = c + count p l.
Proof.
  induction l as [| v l IH]; intros c; simpl.
  - rewrite count_nil. lia.
  - rewrite IH, count_cons. destruct (p v); lia.
Qed.

Lemma GetBlankLines_count fc : GetBlankLines fc = count isBlankLine (Lines fc).
Proof. unfold GetBlankLines. rewrite count_fold. lia. Qed.

Lemma GetFunctionLines_count fc : GetFunctionLines fc = count isFunctionLine (Lines fc).
Proof. unfold GetFunctionLines. rewrite count_fold. lia. Qed.

(** Past index 0 the loop of [GetCommentLines] is a plain counting loop. *)
Lemma GetCommentLines_loop_S lines : forall i c,
  GetCommentLines_loop (S i) lines c = c + count isCommentLine lines.
Proof.
  induction lines as [| v rest IH]; intros i c; simpl.
  - rewrite count_nil. lia.
  - rewrite count_cons. destruct (isCommentLine v); rewrite IH; lia.
Qed.

Lemma GetCommentLines_tail fc :
  GetCommentLines fc = count isCommentLine (tail (Lines fc)).
Proof.
  unfold GetCommentLines. destruct (Lines fc) as [| v rest]; simpl.
  - reflexivity.
  - rewrite GetCommentLines_loop_S. lia.
Qed.

Lemma GetCodes_fold code : forall acc,
  fold_left
    (fun result v =>
       if isCommentLine v then result
       else if isBlankLine v then result
       else result ++ [v]) code acc
  = acc ++ List.filter is_code code.
Proof.
  induction code as [| v code IH]; intros acc; simpl.
  - rewrite app_nil_r. reflexivity.
  - rewrite IH. unfold is_code at 2.
    destruct (isCommentLine v); [reflexivity |].
    destruct (isBlankLine v); [reflexivity |].
    simpl. rewrite <- app_assoc. reflexivity.
Qed.

(** [GetCodes] keeps, in order, the lines that pass [is_code], whatever
    their index. *)
Lemma GetCodes_filter code : GetCodes code = List.filter is_code code.
Proof. unfold GetCodes. apply GetCodes_fold. Qed.

(** Blank lines, comment lines and the lines kept by [GetCodes] partition
    the lines. *)
Lemma lines_partition l :
  count isBlankLine l + count isCommentLine l + Z.of_nat (length (GetCodes l))
  = Z.of_nat (length l).
Proof.
  rewrite GetCodes_filter. fold (count is_code l).
  induction l as [| v l IH]; [reflexivity |].
  rewrite !count_cons. simpl length. unfold is_code at 1.
  destruct (isCommentLine v) eqn:C.
  - rewrite (isCommentLine_not_blank _ C). simpl. lia.
  - destruct (isBlankLine v); simpl; lia.
Qed.

Lemma isCommentLine_hash s : isCommentLine (String "#" s) = true.
Proof.
  apply isCommentLine_spec. exists [], (chars s). split; [reflexivity | constructor].
Qed.

End Counts.

(** * The complexity number *)

Section CCN.

Lemma count_conditions_spec elements : forall r,
  count_conditions r elements = r + count (MatchString conditionExp) elements.
Proof. intros r. unfold count_conditions. apply count_fold. Qed.

(** One iteration of the loop of [CalculateCCN]. *)
Lemma CalculateCCN_step_spec r v :
  CalculateCCN_step r v =
  if quote_excepted v then r else r + keyword_hit v + condition_hits v.
Proof.
  unfold CalculateCCN_step, quote_excepted, keyword_hit, condition_hits.
  rewrite !count_conditions_spec.
  destruct (MatchString ccnExp v), (MatchString NotCcnExp v); simpl; lia.
Qed.

Lemma keyword_hit_range v : 0 <= keyword_hit v <= 1.
Proof. unfold keyword_hit. destruct (MatchString ccnExp v); lia. Qed.

Lemma condition_hits_nonneg v : 0 <= condition_hits v.
Proof. apply count_nonneg. Qed.

Lemma CalculateCCN_step_mono r v : r <= CalculateCCN_step r v.
Proof.
  rewrite CalculateCCN_step_spec.
  pose proof (keyword_hit_range v). pose proof (condition_hits_nonneg v).
  destruct (quote_excepted v); lia.
Qed.

Lemma CalculateCCN_fold_mono code : forall r,
  r <= fold_left CalculateCCN_step code r.
Proof.
  induction code as [| v code IH]; intros r; simpl.
  - lia.
  - pose proof (CalculateCCN_step_mono r v). pose proof (IH (CalculateCCN_step r v)). lia.
Qed.

Lemma CalculateCCN_fold_sum code : forall r,
  Forall (fun v => quote_excepted v = false) code ->
  fold_left CalculateCCN_step code r
  = r + sumZ (fun v => keyword_hit v + condition_hits v) code.
Proof.
  induction code as [| v code IH]; intros r H; simpl.
  - lia.
  - inversion H as [| ? ? Hv Hrest]; subst.
    rewrite (IH _ Hrest), CalculateCCN_step_spec, Hv. lia.
Qed.

End CCN.

(** * The function scanner *)

Section Scanner.

Lemma scan_after_snoc code v :
  scan_after (code ++ [v]) = GetFunctions_step (scan_after code) v.
Proof. unfold scan_after. rewrite fold_left_app. reflexivity. Qed.

(** The step taken on a terminator line while a function is being read:
    the map is left as it is. *)
Lemma GetFunctions_step_terminator st v :
  flag st = true -> is_terminator v = true ->
  GetFunctions_step st v = MkScan (result st) false EmptyString.
Proof.
  unfold is_terminator, GetFunctions_step. intros -> H.
  apply andb_true_iff in H as [-> H]. apply negb_true_iff in H as ->.
  reflexivity.
Qed.

Lemma append_to_insert (m : gmap string (list string)) k l v :
  append_to (<[k := l]> m) k v = <[k := l ++ [v]]> m.
Proof.
  unfold append_to. rewrite lookup_insert_eq, insert_insert_eq. reflexivity.
Qed.

(** Outside any function, lines that start no function pile up under
    [BARE_CODE]. *)
Lemma bare_run code : forall (m : gmap string (list string)) l,
  Forall (fun v => isFunctionLine v = false) code ->
  fold_left GetFunctions_step code (MkScan (<["BARE_CODE" := l]> m) false "BARE_CODE")
  = MkScan (<["BARE_CODE" := l ++ code]> m) false "BARE_CODE".
Proof.
  induction code as [| v code IH]; intros m l H; simpl.
  - rewrite app_nil_r. reflexivity.
  - inversion H as [| ? ? Hv Hrest]; subst.
    unfold GetFunctions_step at 2. cbn [flag result]. rewrite Hv, append_to_insert.
    rewrite (IH _ _ Hrest), <- app_assoc. reflexivity.
Qed.

End Scanner.

(** * The patterns, read as substring tests *)

Section Substrings.

Lemma prefix_spec a : forall b,
  String.prefix a b = true <-> exists rest, chars b = chars a ++ rest.
Proof.
  induction a as [| x a IH]; intros b.
  - rewrite prefix_empty. split; [intros _; exists (chars b); reflexivity | auto].
  - destruct b as [| y b]; simpl.
    + split; [discriminate | intros (rest & E); discriminate].
    + destruct (ascii_dec x y) as [-> | N].
      * rewrite IH. split; intros (rest & E); exists rest.
        -- unfold chars in *. simpl. rewrite E. reflexivity.
        -- unfold chars in *. simpl in E. injection E as E. exact E.
      * split; [discriminate |]. intros (rest & E).
        unfold chars in E. simpl in E. injection E as E _. congruence.
Qed.

Lemma Contains_spec sub s :
  Contains s sub = true <-> exists pre post, chars s = pre ++ chars sub ++ post.
Proof.
  induction s as [| c s IH]; cbn [Contains].
  - rewrite orb_false_r, prefix_spec. split.
    + intros (rest & E). exists [], rest. exact E.
    + intros (pre & post & E). destruct pre; simpl in E; [eauto | discriminate].
  - rewrite orb_true_iff, prefix_spec, IH. split.
    + intros [(rest & E) | (pre & post & E)].
      * exists [], rest. exact E.
      * exists (c :: pre), post. rewrite chars_cons, E. reflexivity.
    + intros (pre & post & E). destruct pre as [| c1 pre].
      * left. exists post. exact E.
      * right. rewrite chars_cons in E. cbn [app] in E. injection E as _ E. eauto.
Qed.

Lemma lang_Str s w : lang (Str s) w <-> w = chars s.
Proof.
  revert w. induction s as [| c s IH]; intros w.
  - simpl. split; [apply lang_Eps_inv | intros ->; constructor].
  - destruct s as [| c' s].
    + simpl. split; [apply lang_Lit_inv | intros ->; constructor].
    + change (Str (String c (String c' s))) with (Cat (Lit c) (Str (String c' s))).
      split.
      * intros H. apply lang_Cat_inv in H as (w1 & w2 & -> & H1 & H2).
        apply lang_Lit_inv in H1 as ->. apply IH in H2 as ->. reflexivity.
      * intros ->. change (chars (String c (String c' s)))
          with ([c] ++ chars (String c' s)).
        constructor; [constructor | apply IH; reflexivity].
Qed.

(** Searching a literal string is [strings.Contains]. *)
Lemma search_Str sub s : search (Str sub) (chars s) = Contains s sub.
Proof.
  apply eq_true_iff_eq. rewrite search_spec, Contains_spec. split.
  - intros (pre & w & post & E & H). apply lang_Str in H as ->. eauto.
  - intros (pre & post & E). exists pre, (chars sub), post.
    split; [exact E | apply lang_Str; reflexivity].
Qed.

Lemma search_Alt r1 r2 s : search (Alt r1 r2) s = search r1 s || search r2 s.
Proof.
  apply eq_true_iff_eq. rewrite orb_true_iff, !search_spec. split.
  - intros (pre & w & post & E & H).
    apply lang_Alt_inv in H as [H | H]; [left | right]; eauto.
  - intros [(pre & w & post & E & H) | (pre & w & post & E & H)];
      exists pre, w, post; (split; [exact E |]);
      [apply lang_alt_l | apply lang_alt_r]; exact H.
Qed.

(** [conditionExp] matches the strings that contain one of the two
    connectives. *)
Lemma conditionExp_spec e :
  MatchString conditionExp e = Contains e "&&" || Contains e "||".
Proof.
  unfold MatchString, conditionExp. cbn [bol body alts].
  rewrite search_Alt, !search_Str. reflexivity.
Qed.

Lemma ccnExp_spec v :
  MatchString ccnExp v =
  Contains v "if" || (Contains v "while" || (Contains v "for" || Contains v ";;")).
Proof.
  unfold MatchString, ccnExp. cbn [bol body alts].
  rewrite !search_Alt, !search_Str. reflexivity.
Qed.

(** A match of a pattern that ends with a literal string contains that
    string. *)
Lemma search_ends_with_Str r kw s :
  search (Cat r (Str kw)) (chars s) = true -> Contains s kw = true.
Proof.
  rewrite search_spec, Contains_spec.
  intros (pre & w & post & E & H).
  apply lang_Cat_inv in H as (w1 & w2 & -> & _ & H2). apply lang_Str in H2 as ->.
  exists (pre ++ w1), post. rewrite E, <- !app_assoc. reflexivity.
Qed.

Lemma search_quote_then q kw s :
  search (seq [Star Dot; Lit q; Star Dot; Str kw]) (chars s) = true ->
  Contains s kw = true.
Proof.
  cbn [seq]. rewrite search_spec.
  intros (pre & w & post & E & H).
  apply lang_Cat_inv in H as (w1 & w' & -> & _ & H).
  apply lang_Cat_inv in H as (w2 & w'' & -> & _ & H).
  apply lang_Cat_inv in H as (w3 & w4 & -> & _ & H). apply lang_Str in H as ->.
  apply Contains_spec. exists (pre ++ w1 ++ w2 ++ w3), post.
  rewrite E, <- !app_assoc. reflexivity.
Qed.

(** Every alternative of [NotCcnExp] ends with [if], [while] or [for]:
    the exception cannot apply to a line that contains none of them. *)
Lemma NotCcnExp_needs_word v :
  MatchString NotCcnExp v = true ->
  Contains v "if" || (Contains v "while" || Contains v "for") = true.
Proof.
  unfold MatchString, NotCcnExp. cbn [bol body alts].
  rewrite !search_Alt, !orb_true_iff.
  intros [H | [H | [H | [H | [H | H]]]]]; apply search_quote_then in H; auto.
Qed.

End Substrings.

(** * The claims *)

(** ** Line classification and file-level counts *)

(** C8. [isBlankLine] answers true exactly when the line with every space
    (U+0020 only) removed is the empty string, that is, when every byte of
    the line is a space.  The empty line and a line of three spaces are
    blank; a line made of one tab is not. *)
Theorem isBlankLine_spec :
  (forall line,
     chars (ReplaceAll line " " EmptyString) = List.filter not_space (chars line)) /\
  (forall line,
     isBlankLine line = true <-> ReplaceAll line " " EmptyString = EmptyString) /\
  (forall line, isBlankLine line = true <-> Forall (eq " "%char) (chars line)) /\
  isBlankLine EmptyString = true /\
  isBlankLine "   " = true /\
  isBlankLine (String "009" EmptyString) = false.
Proof.
  split; [exact chars_ReplaceAll_space |].
  split.
  { intros line. rewrite isBlankLine_filter, <- chars_ReplaceAll_space.
    apply chars_nil. }
  split.
  { intros line. rewrite isBlankLine_filter. apply filter_not_space_nil. }
  repeat split; reflexivity.
Qed.

(** C7. The comment count of a file is the number of lines that match the
    comment pattern among all lines but the first.  The first line is never
    counted, whatever its text; a matching line at any later index adds
    one.  The text [# comment] counts for nothing at index 0 and for one at
    index 1. *)
Theorem GetCommentLines_skips_index_0 :
  (forall fc, GetCommentLines fc = count isCommentLine (tail (Lines fc))) /\
  (forall n v rest,
     GetCommentLines (MkFileContents n (v :: rest)) = count isCommentLine rest) /\
  (forall n pre v post,
     pre <> [] -> isCommentLine v = true ->
     GetCommentLines (MkFileContents n (pre ++ v :: post))
     = GetCommentLines (MkFileContents n (pre ++ post)) + 1) /\
  isCommentLine "# comment" = true /\
  GetCommentLines (MkFileContents "a.sh" ["# comment"]) = 0 /\
  GetCommentLines (MkFileContents "a.sh" ["echo hi"; "# comment"]) = 1.
Proof.
  split; [exact GetCommentLines_tail |].
  split; [intros n v rest; apply GetCommentLines_tail |].
  split; [| repeat split; reflexivity].
  intros n pre v post Hpre Hv.
  destruct pre as [| p pre]; [contradiction |].
  rewrite !GetCommentLines_tail. cbn [Lines tail app].
  rewrite !count_app, count_cons, Hv. lia.
Qed.

(** C5. For every file the three derived counts add up to the number of
    lines, where the line count is the length of the line sequence, the
    blank count is the number of blank lines and the comment count is the
    number of comment lines past index 0. *)
Theorem GetCodeLines_sum :
  forall fc,
    GetCodeLines fc + GetCommentLines fc + GetBlankLines fc = GetLines fc /\
    GetLines fc = Z.of_nat (length (Lines fc)) /\
    GetBlankLines fc = count isBlankLine (Lines fc) /\
    GetCommentLines fc = count isCommentLine (tail (Lines fc)).
Proof.
  intros fc. split; [unfold GetCodeLines; lia |].
  split; [reflexivity |].
  split; [apply GetBlankLines_count | apply GetCommentLines_tail].
Qed.

(** C10. [GetCodes] applies the comment pattern to every line, index 0
    included.  When the first line of a file is a comment line (a shebang,
    say), [GetCodes] removes it although the file-level counts take it for
    code: the filtered sequence holds no comment line and is exactly one
    line shorter than the code count of the file. *)
Theorem GetCodes_drops_leading_comment n first rest :
  isCommentLine first = true ->
  GetCodes (first :: rest) = GetCodes rest /\
  (forall v, In v (GetCodes (first :: rest)) -> isCommentLine v = false) /\
  Z.of_nat (length (GetCodes (first :: rest))) + 1
  = GetCodeLines (MkFileContents n (first :: rest)) /\
  Z.of_nat (length (GetCodes (first :: rest)))
  < GetCodeLines (MkFileContents n (first :: rest)).
Proof.
  intros Hc.
  assert (E : GetCodes (first :: rest) = GetCodes rest).
  { rewrite !GetCodes_filter. cbn [List.filter]. unfold is_code at 1.
    rewrite Hc. reflexivity. }
  assert (L : Z.of_nat (length (GetCodes (first :: rest))) + 1
              = GetCodeLines (MkFileContents n (first :: rest))).
  { rewrite E. unfold GetCodeLines. cbv zeta.
    rewrite GetBlankLines_count, GetCommentLines_tail. unfold GetLines.
    cbn [Lines tail]. rewrite count_cons, (isCommentLine_not_blank _ Hc).
    pose proof (lines_partition rest). simpl length. lia. }
  split; [exact E |]. split; [| split; [exact L | lia]].
  intros v Hv. rewrite GetCodes_filter in Hv.
  apply List.filter_In in Hv as [_ Hv]. unfold is_code in Hv.
  apply andb_true_iff in Hv as [Hv _]. apply negb_true_iff in Hv. exact Hv.
Qed.

Lemma GetCodes_drops_leading_comment_witness :
  isCommentLine "#!/bin/sh" = true /\
  Z.of_nat (length (GetCodes ["#!/bin/sh"; "echo hi"]))
  < GetCodeLines (MkFileContents "a.sh" ["#!/bin/sh"; "echo hi"]).
Proof.
  split; [reflexivity |].
  apply (GetCodes_drops_leading_comment "a.sh" "#!/bin/sh" ["echo hi"]).
  reflexivity.
Defined.

(** ** The complexity number *)

(** C6. For every sequence of body lines, the empty one included,
    [CalculateCCN] returns at least 1. *)
Theorem CalculateCCN_ge_1 :
  forall code, 1 <= CalculateCCN code /\ CalculateCCN [] = 1.
Proof.
  intros code. split; [apply CalculateCCN_fold_mono | reflexivity].
Qed.

(** Elements match [conditionExp] exactly when they contain a connective. *)
Lemma condition_hits_tokens v : condition_hits v = tokens_with_connective v.
Proof.
  unfold condition_hits, tokens_with_connective, count.
  rewrite (List.filter_ext _ has_connective); [reflexivity |].
  intros e. apply conditionExp_spec.
Qed.

(** The keyword rule of [CalculateCCN] on one line: a line that matches
    [ccnExp] adds exactly one for the keywords unless it matches
    [NotCcnExp], and then the line adds nothing at all. *)
Lemma CalculateCCN_step_keyword r v :
  MatchString ccnExp v = true ->
  (MatchString NotCcnExp v = false ->
   CalculateCCN_step r v = r + 1 + tokens_with_connective v) /\
  (MatchString NotCcnExp v = true -> CalculateCCN_step r v = r).
Proof.
  intros Hk. rewrite CalculateCCN_step_spec, <- condition_hits_tokens.
  unfold quote_excepted, keyword_hit. rewrite Hk.
  split; intros ->; reflexivity.
Qed.

(** A line whose only keyword is the case terminator is counted whether
    or not the terminator stands after a quote: [NotCcnExp] has no
    alternative for it. *)
Lemma CalculateCCN_step_case_terminator r v :
  Contains v ";;" = true ->
  Contains v "if" = false -> Contains v "while" = false -> Contains v "for" = false ->
  CalculateCCN_step r v = r + 1 + tokens_with_connective v.
Proof.
  intros Hc Hi Hw Hf.
  assert (Hk : MatchString ccnExp v = true).
  { rewrite ccnExp_spec, Hc, !orb_true_r. reflexivity. }
  apply (CalculateCCN_step_keyword r v Hk).
  destruct (MatchString NotCcnExp v) eqn:N; [| reflexivity].
  apply NotCcnExp_needs_word in N. rewrite Hi, Hw, Hf in N. discriminate.
Qed.

(** C3. On the one-line body [echo ";;"], whose only keyword match is a
    case terminator inside double quotes, the line matches [ccnExp] and does
    not match [NotCcnExp]: the keyword increment is applied and the result
    is 2, not 1.  The same line with [if] between the quotes is skipped. *)
Theorem CalculateCCN_quoted_case_terminator :
  MatchString ccnExp echo_quoted_case = true /\
  MatchString NotCcnExp echo_quoted_case = false /\
  tokens_with_connective echo_quoted_case = 0 /\
  CalculateCCN [echo_quoted_case] = 2 /\
  CalculateCCN ["echo " +:+ DQ +:+ "if" +:+ DQ] = 1.
Proof. repeat split; vm_compute; reflexivity. Qed.

(** C4, as stated, fails on [a&&b&&c]: the line is one element with two
    occurrences of a connective, and it adds one to the count, not two. *)
Lemma CalculateCCN_counts_elements_not_occurrences :
  Split "a&&b&&c" " " = ["a&&b&&c"] /\
  spec_connective_occurrences "a&&b&&c" = 2 /\
  quote_excepted "a&&b&&c" = false /\
  CalculateCCN ["a&&b&&c"] = 1 + 1 /\
  CalculateCCN ["a&&b&&c"] <> 1 + spec_connective_occurrences "a&&b&&c".
Proof. repeat split; vm_compute; congruence. Qed.

(** C4, amended.  Each body line on which the quote exception does not
    fire is split on single spaces, and every element that contains at
    least one occurrence of [&&] or [||] adds exactly one to the count,
    however many occurrences it contains; such a line adds its keyword
    increment (0 or 1) plus one per such element. *)
Theorem CalculateCCN_one_per_matching_element :
  forall code,
    Forall (fun v => quote_excepted v = false) code ->
    CalculateCCN code
    = 1 + sumZ (fun v => keyword_hit v + tokens_with_connective v) code.
Proof.
  intros code H. unfold CalculateCCN. rewrite (CalculateCCN_fold_sum code 1 H).
  f_equal. induction code as [| v code IH]; [reflexivity |].
  inversion H; subst. simpl. rewrite condition_hits_tokens, IH by assumption.
  reflexivity.
Qed.

Lemma CalculateCCN_one_per_matching_element_witness :
  Forall (fun v => quote_excepted v = false) ["if a&&b&&c || d; then"; "a&&b&&c"] /\
  CalculateCCN ["if a&&b&&c || d; then"; "a&&b&&c"] = 1 + (1 + 2 + (0 + 1 + 0)).
Proof.
  split.
  - repeat constructor.
  - apply (CalculateCCN_one_per_matching_element
             ["if a&&b&&c || d; then"; "a&&b&&c"]).
    repeat constructor.
Defined.

(** ** The function scanner *)

(** C2. On the line [echo "foo() {"], where the declaration idiom occurs
    only inside a double-quoted string, [isFunctionLine] answers true:
    [removeQuote] is applied to the line itself, in which no single quote
    occurs, and leaves it unchanged.  Applied to the line with its double
    quotes turned into single quotes it would have removed the quoted text,
    as it does for the single-quoted form of the same line. *)
Theorem isFunctionLine_double_quoted :
  isFunctionLine echo_quoted_decl = true /\
  removeQuote echo_quoted_decl = echo_quoted_decl /\
  removeQuote (ReplaceAll echo_quoted_decl DQ "'") = "echo " /\
  MatchString functionStartExp "echo " = false /\
  isFunctionLine "echo 'foo() {'" = false.
Proof. repeat split; vm_compute; reflexivity. Qed.

(** While a function is being read, a terminator line leaves the map
    unchanged, whatever came before. *)
Lemma GetFunctions_terminator_dropped code v :
  flag (scan_after code) = true -> is_terminator v = true ->
  GetFunctions (code ++ [v]) = GetFunctions code /\
  flag (scan_after (code ++ [v])) = false /\
  funcname (scan_after (code ++ [v])) = EmptyString.
Proof.
  intros Hf Ht. unfold GetFunctions. fold (scan_after (code ++ [v])).
  fold (scan_after code).
  rewrite scan_after_snoc, (GetFunctions_step_terminator _ _ Hf Ht).
  repeat split.
Qed.

(** C1. On the script [foo() {], [echo hi], [}] the scanner is inside
    [foo] when it reads the last line, that line is a terminator, the name
    is cleared and the scanner is outside afterwards, but the body returned
    for [foo] is [echo hi] alone: the terminator line is not appended and is
    not counted. *)
Theorem GetFunctions_terminator_not_appended :
  flag (scan_after ["foo() {"; "echo hi"]) = true /\
  funcname (scan_after ["foo() {"; "echo hi"]) = "foo" /\
  is_terminator "}" = true /\
  scan_after ["foo() {"; "echo hi"; "}"]
  = MkScan {[ "foo" := ["echo hi"] ]} false EmptyString /\
  GetFunctions ["foo() {"; "echo hi"; "}"] = {[ "foo" := ["echo hi"] ]} /\
  codeLineCount (default [] (GetFunctions ["foo() {"; "echo hi"; "}"] !! "foo")) = 1.
Proof. repeat split; vm_compute; reflexivity. Qed.

(** C9, as stated, fails on the empty sequence: no line starts a function,
    and the map returned has no bucket at all. *)
Lemma GetFunctions_empty_no_bucket :
  Forall (fun v => isFunctionLine v = false) [] /\
  GetFunctions [] = ∅ /\
  GetFunctions [] !! "BARE_CODE" = None /\
  size (GetFunctions []) = 0%nat.
Proof. repeat split; constructor. Qed.

(** C9, amended.  For every non-empty sequence of code lines none of
    which starts a function, [GetFunctions] returns the map with the single
    bucket [BARE_CODE], whose body is the whole input in input order. *)
Theorem GetFunctions_bare_code_only :
  forall code,
    code <> [] ->
    Forall (fun v => isFunctionLine v = false) code ->
    GetFunctions code = {[ "BARE_CODE" := code ]}.
Proof.
  intros [| v code] Hne H; [contradiction |].
  inversion H as [| ? ? Hv Hrest]; subst.
  unfold GetFunctions. cbn [fold_left].
  unfold GetFunctions_step at 2, GetFunctions_init. cbn [flag result].
  rewrite Hv. unfold append_to. rewrite lookup_empty. cbn [default app].
  rewrite (bare_run code ∅ [v] Hrest). reflexivity.
Qed.

Lemma GetFunctions_bare_code_only_witness :
  GetFunctions ["echo hi"; "x=1"] = {[ "BARE_CODE" := ["echo hi"; "x=1"] ]}.
Proof.
  apply (GetFunctions_bare_code_only ["echo hi"; "x=1"]).
  - discriminate.
  - repeat constructor.
Defined.


(** * Further properties of the program *)

(** ** [removeQuote] *)

Section RemoveQuote.

Lemma chars_app a b : chars (a +:+ b) = chars a ++ chars b.
Proof.
  induction a as [| c a IH]; [reflexivity |].
  change (chars (String c (a +:+ b)) = (c :: chars a) ++ chars b).
  rewrite chars_cons, IH. reflexivity.
Qed.

Lemma chars_inj a b : chars a = chars b -> a = b.
Proof.
  intros H. rewrite <- (String.string_of_list_ascii_of_string a),
    <- (String.string_of_list_ascii_of_string b).
  unfold chars in H. rewrite H. reflexivity.
Qed.

Lemma Contains_char c s :
  Contains s (String c EmptyString) = true <-> In c (chars s).
Proof.
  rewrite Contains_spec. split.
  - intros (pre & post & E). rewrite E. apply in_or_app. right. left. reflexivity.
  - intros H. apply in_split in H as (pre & post & E). exists pre, post. exact E.
Qed.

Lemma Contains_char_false c s :
  Contains s (String c EmptyString) = false <-> ~ In c (chars s).
Proof.
  rewrite <- Contains_char. destruct (Contains s (String c EmptyString)); split;
    intros H; try reflexivity; try discriminate; congruence.
Qed.

Lemma Contains_piece c : Contains (String c EmptyString) "'" = Ascii.eqb squote c.
Proof.
  cbn [Contains]. rewrite prefix_single. cbn. apply orb_false_r.
Qed.

Lemma chars_Join_app l1 l2 :
  chars (Join (l1 ++ l2)) = chars (Join l1) ++ chars (Join l2).
Proof.
  induction l1 as [| e l1 IH]; [reflexivity |].
  cbn [app Join]. rewrite !chars_app, IH, app_assoc. reflexivity.
Qed.

Lemma removeQuote_loop_strip s : forall flag tmp,
  chars (Join (removeQuote_loop flag tmp (explode s)))
  = chars (Join tmp) ++ strip_quoted flag (chars s).
Proof.
  induction s as [| c s IH]; intros flag tmp.
  - cbn. rewrite app_nil_r. reflexivity.
  - cbn [explode removeQuote_loop]. rewrite Contains_piece, chars_cons.
    cbn [strip_quoted]. destruct flag, (Ascii.eqb squote c); cbn [negb];
      rewrite IH; try reflexivity.
    rewrite chars_Join_app. cbn [Join]. rewrite chars_app, <- !app_assoc.
    reflexivity.
Qed.

(** [removeQuote] on the bytes of the line. *)
Lemma chars_removeQuote line :
  chars (removeQuote line) = strip_quoted false (chars line).
Proof. unfold removeQuote. rewrite removeQuote_loop_strip. reflexivity. Qed.

Lemma strip_quoted_no_quote l : forall flag, ~ In squote (strip_quoted flag l).
Proof.
  induction l as [| c l IH]; intros flag; cbn [strip_quoted]; [intros [] |].
  destruct (Ascii.eqb_spec squote c) as [E | N]; [apply IH |].
  destruct flag; [apply IH |].
  intros [H | H]; [congruence | exact (IH _ H)].
Qed.

Lemma strip_quoted_id l : ~ In squote l -> strip_quoted false l = l.
Proof.
  induction l as [| c l IH]; intros H; [reflexivity |].
  cbn [strip_quoted]. destruct (Ascii.eqb_spec squote c) as [E | N].
  - exfalso. apply H. left. symmetry. exact E.
  - rewrite IH; [reflexivity |]. intros H'. apply H. right. exact H'.
Qed.

Lemma strip_quoted_up l : ~ In squote l -> strip_quoted true l = [].
Proof.
  induction l as [| c l IH]; intros H; [reflexivity |].
  cbn [strip_quoted]. destruct (Ascii.eqb_spec squote c) as [E | N].
  - exfalso. apply H. left. symmetry. exact E.
  - apply IH. intros H'. apply H. right. exact H'.
Qed.

Lemma strip_quoted_app l1 l2 flag :
  ~ In squote l1 ->
  strip_quoted flag (l1 ++ l2)
  = (if flag then [] else l1) ++ strip_quoted flag l2.
Proof.
  induction l1 as [| c l1 IH]; intros H.
  - destruct flag; reflexivity.
  - cbn [app strip_quoted]. destruct (Ascii.eqb_spec squote c) as [E | N].
    + exfalso. apply H. left. symmetry. exact E.
    + rewrite IH by (intros H'; apply H; right; exact H').
      destruct flag; reflexivity.
Qed.

Lemma strip_quoted_quote l flag :
  strip_quoted flag (squote :: l) = strip_quoted (negb flag) l.
Proof. reflexivity. Qed.

Lemma removeQuote_id line : Contains line SQ = false -> removeQuote line = line.
Proof.
  intros H. apply chars_inj. rewrite chars_removeQuote.
  apply strip_quoted_id, Contains_char_false, H.
Qed.

Lemma removeQuote_clean line : Contains (removeQuote line) SQ = false.
Proof.
  apply Contains_char_false. rewrite chars_removeQuote.
  apply strip_quoted_no_quote.
Qed.

End RemoveQuote.

(** X1. The text returned by [removeQuote] never contains a single quote. *)
Theorem removeQuote_no_quote :
  forall line, Contains (removeQuote line) SQ = false.
Proof.
  exact removeQuote_clean.
Qed.

(** X2. [removeQuote] returns a line that has no single quote as it is, and
    applying it twice is the same as applying it once. *)
Theorem removeQuote_idempotent :
  forall line,
    (Contains line SQ = false -> removeQuote line = line) /\
    removeQuote (removeQuote line) = removeQuote line.
Proof.
  intros line. split; [apply removeQuote_id |].
  apply removeQuote_id, removeQuote_clean.
Qed.

(** X3. A quoted segment is removed with its two quotes, and the scan goes
    on after it; a quote that is never closed removes the rest of the line. *)
Theorem removeQuote_segment a b c :
  Contains a SQ = false -> Contains b SQ = false ->
  removeQuote (a +:+ SQ +:+ b +:+ SQ +:+ c) = a +:+ removeQuote c /\
  removeQuote (a +:+ SQ +:+ b) = a.
Proof.
  intros Ha Hb. apply Contains_char_false in Ha, Hb.
  split; apply chars_inj; rewrite chars_removeQuote, !chars_app.
  - rewrite (strip_quoted_app _ _ false Ha).
    change (chars SQ ++ chars b ++ chars SQ ++ chars c)
      with (squote :: chars b ++ squote :: chars c).
    rewrite strip_quoted_quote. cbn [negb].
    rewrite (strip_quoted_app _ _ true Hb), strip_quoted_quote. cbn [negb app].
    rewrite chars_removeQuote. reflexivity.
  - rewrite (strip_quoted_app _ _ false Ha).
    change (chars SQ ++ chars b) with (squote :: chars b).
    rewrite strip_quoted_quote. cbn [negb].
    rewrite (strip_quoted_up _ Hb), app_nil_r. reflexivity.
Qed.

Lemma removeQuote_segment_witness :
  removeQuote ("echo " +:+ SQ +:+ "a b" +:+ SQ +:+ " x 'y' z") = "echo " +:+ removeQuote " x 'y' z" /\
  removeQuote ("echo " +:+ SQ +:+ "a b") = "echo ".
Proof.
  apply (removeQuote_segment "echo " "a b" " x 'y' z"); reflexivity.
Defined.

(** ** [isFunctionLine] and [GetFunctionName] *)

Section FunctionLines.

(** Both sides of an equation between concatenations, brought to the
    right-nested form. *)
Ltac norm_app :=
  repeat first [ rewrite <- app_assoc | progress cbn [app] ]; try reflexivity.

Lemma lang_Star_nil_or r w : w = [] -> lang (Star r) w.
Proof. intros ->. constructor. Qed.

(** The declaration pattern on the bytes of a line: an opening parenthesis,
    white space, a closing parenthesis, white space and an opening brace,
    anywhere on the line. *)
Lemma functionStartExp_spec line :
  MatchString functionStartExp line = true <->
  exists pre ws1 ws2 post,
    chars line = pre ++ "("%char :: ws1 ++ ")"%char :: ws2 ++ "{"%char :: post /\
    Forall (fun c => is_space c = true) ws1 /\
    Forall (fun c => is_space c = true) ws2.
Proof.
  unfold MatchString, functionStartExp. cbn [bol body seq].
  rewrite search_spec. split.
  - intros (p & w & post & E & H).
    apply lang_Cat_inv in H as (d & w1 & -> & _ & H).
    apply lang_Cat_inv in H as (o & w2 & -> & Ho & H). apply lang_Lit_inv in Ho as ->.
    apply lang_Cat_inv in H as (ws1 & w3 & -> & H1 & H).
    apply lang_Cat_inv in H as (cl & w4 & -> & Hc & H). apply lang_Lit_inv in Hc as ->.
    apply lang_Cat_inv in H as (ws2 & w5 & -> & H2 & H). apply lang_Lit_inv in H as ->.
    apply lang_Star_Space in H1, H2.
    exists (p ++ d), ws1, ws2, post. split; [| auto].
    rewrite E. norm_app.
  - intros (pre & ws1 & ws2 & post & E & H1 & H2).
    exists pre, ("("%char :: ws1 ++ ")"%char :: ws2 ++ ["{"%char]), post. split.
    + rewrite E. norm_app.
    + change (lang (Cat (Star Dot) (Cat (Lit "(") (Cat (Star Space)
                (Cat (Lit ")") (Cat (Star Space) (Lit "{"))))))
                ([] ++ ["("%char] ++ ws1 ++ [")"%char] ++ ws2 ++ ["{"%char])).
      repeat (constructor; try (apply lang_Star_Space; assumption)).
Qed.

Lemma isFunctionLine_no_quote line :
  Contains line SQ = false -> isFunctionLine line = MatchString functionStartExp line.
Proof.
  intros H. unfold isFunctionLine. cbv zeta.
  destruct (Contains (ReplaceAll line DQ "'") "'"); [| reflexivity].
  rewrite (removeQuote_id _ H). reflexivity.
Qed.

Lemma search_tail r c s : search r s = true -> search r (c :: s) = true.
Proof. intros H. rewrite search_cons, H. apply orb_true_r. Qed.

Lemma MatchString_unanchored_cons re c s :
  bol re = false -> MatchString re s = true -> MatchString re (String c s) = true.
Proof.
  unfold MatchString. intros ->. rewrite chars_cons. apply search_tail.
Qed.

(** A byte that is no quote, put in front of a function line, leaves it a
    function line. *)
Lemma isFunctionLine_cons c line :
  Ascii.eqb squote c = false -> Ascii.eqb dquote c = false ->
  isFunctionLine line = true -> isFunctionLine (String c line) = true.
Proof.
  unfold squote, dquote. intros Hs Hd. unfold isFunctionLine. cbv zeta.
  assert (ER : ReplaceAll (String c line) DQ "'" = String c (ReplaceAll line DQ "'")).
  { unfold ReplaceAll, Replacer. cbn [replace_from find_old].
    unfold DQ, dquote. rewrite prefix_single, Hd. reflexivity. }
  assert (EC : forall t, Contains (String c t) "'" = Contains t "'").
  { intros t. cbn [Contains]. rewrite prefix_single, Hs. reflexivity. }
  assert (EQ : removeQuote (String c line) = String c (removeQuote line)).
  { apply chars_inj. rewrite chars_cons, !chars_removeQuote, chars_cons.
    cbn [strip_quoted]. unfold squote. rewrite Hs. reflexivity. }
  rewrite ER, EC, EQ.
  destruct (Contains (ReplaceAll line DQ "'") "'");
    apply MatchString_unanchored_cons; reflexivity.
Qed.

Lemma find_old_name_None c s :
  find_old [ ("function", EmptyString); ("{", EmptyString); ("(", EmptyString);
             (")", EmptyString); (" ", EmptyString) ] (String c s) = None ->
  name_char c = true.
Proof.
  cbn [find_old].
  destruct (String.prefix "function" (String c s)); [discriminate |].
  rewrite !prefix_single. unfold name_char.
  destruct (Ascii.eqb "{" c); [discriminate |].
  destruct (Ascii.eqb "(" c); [discriminate |].
  destruct (Ascii.eqb ")" c); [discriminate |].
  destruct (Ascii.eqb " " c); [discriminate |]. reflexivity.
Qed.

Lemma find_old_name_Some c s old new :
  find_old [ ("function", EmptyString); ("{", EmptyString); ("(", EmptyString);
             (")", EmptyString); (" ", EmptyString) ] (String c s) = Some (old, new) ->
  new = EmptyString /\
  (String.prefix "function" (String c s) = true \/
   (name_char c = false /\ String.length old = 1%nat)).
Proof.
  cbn [find_old].
  destruct (String.prefix "function" (String c s)).
  { intros H. injection H as <- <-. auto. }
  rewrite !prefix_single. unfold name_char.
  destruct (Ascii.eqb "{" c); [intros H; injection H as <- <-; auto |].
  destruct (Ascii.eqb "(" c); [intros H; injection H as <- <-; auto |].
  destruct (Ascii.eqb ")" c); [intros H; injection H as <- <-; auto |].
  destruct (Ascii.eqb " " c); [intros H; injection H as <- <-; auto |].
  discriminate.
Qed.

Lemma GetFunctionName_chars s : forall skip c,
  In c (chars (replace_from
     [ ("function", EmptyString); ("{", EmptyString); ("(", EmptyString);
       (")", EmptyString); (" ", EmptyString) ] skip s)) ->
  name_char c = true.
Proof.
  induction s as [| a s IH]; intros skip c; [intros [] |].
  cbn [replace_from]. destruct skip as [| k]; [| apply IH].
  destruct (find_old _ (String a s)) as [[old new] |] eqn:F.
  - apply find_old_name_Some in F as [-> _]. apply IH.
  - apply find_old_name_None in F. rewrite chars_cons.
    intros [<- | H]; [exact F | exact (IH _ _ H)].
Qed.

Lemma Contains_tail c s sub : Contains (String c s) sub = false -> Contains s sub = false.
Proof. cbn [Contains]. intros H. apply orb_false_iff in H as [_ H]. exact H. Qed.

Lemma Contains_head c s sub :
  Contains (String c s) sub = false -> String.prefix sub (String c s) = false.
Proof. cbn [Contains]. intros H. apply orb_false_iff in H as [H _]. exact H. Qed.

Lemma GetFunctionName_filter s :
  Contains s "function" = false ->
  chars (replace_from
     [ ("function", EmptyString); ("{", EmptyString); ("(", EmptyString);
       (")", EmptyString); (" ", EmptyString) ] O s)
  = List.filter name_char (chars s).
Proof.
  induction s as [| a s IH]; intros H; [reflexivity |].
  cbn [replace_from]. rewrite chars_cons. cbn [List.filter].
  pose proof (Contains_head _ _ _ H) as Hp.
  specialize (IH (Contains_tail _ _ _ H)).
  destruct (find_old _ (String a s)) as [[old new] |] eqn:F.
  - apply find_old_name_Some in F as [-> [F | [F L]]]; [congruence |].
    rewrite F, L. exact IH.
  - apply find_old_name_None in F. rewrite F, chars_cons, IH. reflexivity.
Qed.

End FunctionLines.

(** X4. On a line without a single quote, [isFunctionLine] is the bare
    pattern test, double quotes or not: it answers true exactly when the
    line has, anywhere, an opening parenthesis, a closing parenthesis and an
    opening brace in a row with nothing but white space between them. *)
Theorem isFunctionLine_without_single_quote line :
  Contains line SQ = false ->
  (isFunctionLine line = true <->
   exists pre ws1 ws2 post,
     chars line = pre ++ "("%char :: ws1 ++ ")"%char :: ws2 ++ "{"%char :: post /\
     Forall (fun c => is_space c = true) ws1 /\
     Forall (fun c => is_space c = true) ws2).
Proof.
  intros H. rewrite (isFunctionLine_no_quote _ H). apply functionStartExp_spec.
Qed.

Lemma isFunctionLine_without_single_quote_witness :
  isFunctionLine "foo ( ) {" = true <->
  exists pre ws1 ws2 post,
    chars "foo ( ) {" = pre ++ "("%char :: ws1 ++ ")"%char :: ws2 ++ "{"%char :: post /\
    Forall (fun c => is_space c = true) ws1 /\
    Forall (fun c => is_space c = true) ws2.
Proof.
  apply (isFunctionLine_without_single_quote "foo ( ) {"). reflexivity.
Defined.

(** X5. A declaration that is commented out with a hash sign is still a
    function line: [GetFunctionLines] counts it, while [GetCodes] removes
    it as a comment line. *)
Theorem GetFunctionLines_counts_commented_declaration n pre v post :
  isFunctionLine v = true ->
  isFunctionLine (String "#" v) = true /\
  isCommentLine (String "#" v) = true /\
  GetFunctionLines (MkFileContents n (pre ++ String "#" v :: post))
  = GetFunctionLines (MkFileContents n (pre ++ post)) + 1 /\
  GetCodes (pre ++ String "#" v :: post) = GetCodes (pre ++ post).
Proof.
  intros H.
  assert (Hf : isFunctionLine (String "#" v) = true)
    by (apply isFunctionLine_cons; [reflexivity | reflexivity | exact H]).
  pose proof (isCommentLine_hash v) as Hc.
  split; [exact Hf |]. split; [exact Hc |]. split.
  - rewrite !GetFunctionLines_count. cbn [Lines].
    rewrite !count_app, count_cons, Hf. lia.
  - rewrite !GetCodes_filter, !List.filter_app. cbn [List.filter].
    unfold is_code at 2. rewrite Hc. reflexivity.
Qed.

Lemma GetFunctionLines_counts_commented_declaration_witness :
  GetFunctionLines (MkFileContents "a.sh" ["x=1"; "#foo() {"; "y=2"])
  = GetFunctionLines (MkFileContents "a.sh" ["x=1"; "y=2"]) + 1 /\
  GetCodes ["x=1"; "#foo() {"; "y=2"] = GetCodes ["x=1"; "y=2"].
Proof.
  apply (GetFunctionLines_counts_commented_declaration "a.sh" ["x=1"] "foo() {" ["y=2"]).
  reflexivity.
Defined.

(** X6. The name returned by [GetFunctionName] never contains a space, a
    parenthesis or an opening brace; when the word [function] does not
    occur on the line, the name is the line without those four bytes. *)
Theorem GetFunctionName_chars_removed :
  forall line,
    (forall c, In c (chars (GetFunctionName line)) ->
       c <> " "%char /\ c <> "("%char /\ c <> ")"%char /\ c <> "{"%char) /\
    (Contains line "function" = false ->
     chars (GetFunctionName line) = List.filter name_char (chars line)).
Proof.
  intros line. split.
  - intros c H. apply GetFunctionName_chars in H. unfold name_char in H.
    repeat split; intros ->; discriminate.
  - apply GetFunctionName_filter.
Qed.

(** ** [GetFunctions] *)

Section ScannerRuns.

Lemma scan_after_app a b :
  scan_after (a ++ b) = fold_left GetFunctions_step b (scan_after a).
Proof. unfold scan_after. apply fold_left_app. Qed.

(** Inside a function every line that is no terminator is appended under
    the current name, whatever else it looks like. *)
Lemma inside_step m k v :
  is_terminator v = false ->
  GetFunctions_step (MkScan m true k) v = MkScan (append_to m k v) true k.
Proof.
  unfold is_terminator, GetFunctions_step. cbn [flag result funcname].
  destruct (MatchString functionEndExp v); [| reflexivity].
  destruct (MatchString functionNotEndExp v); [reflexivity | discriminate].
Qed.

Lemma add_body_cons (m : gmap string (list string)) k v rest :
  add_body (append_to m k v) k rest = add_body m k (v :: rest).
Proof.
  unfold add_body, append_to. destruct rest as [| w rest]; [reflexivity |].
  rewrite lookup_insert_eq, insert_insert_eq.
  change (default [] (Some (default [] (m !! k) ++ [v])))
    with (default [] (m !! k) ++ [v]).
  rewrite <- app_assoc. reflexivity.
Qed.

Lemma inside_run body : forall (m : gmap string (list string)) k,
  Forall (fun v => is_terminator v = false) body ->
  fold_left GetFunctions_step body (MkScan m true k) = MkScan (add_body m k body) true k.
Proof.
  induction body as [| v body IH]; intros m k H; [reflexivity |].
  inversion H as [| ? ? Hv Hrest]; subst.
  cbn [fold_left]. rewrite (inside_step _ _ _ Hv), (IH _ _ Hrest), add_body_cons.
  reflexivity.
Qed.

Lemma outside_declaration st decl :
  flag st = false -> isFunctionLine decl = true ->
  GetFunctions_step st decl = MkScan (result st) true (GetFunctionName decl).
Proof. unfold GetFunctions_step. intros -> ->. reflexivity. Qed.

Lemma lookup_append_to (m : gmap string (list string)) kk v k body :
  append_to m kk v !! k = Some body ->
  (k = kk /\ body = default [] (m !! kk) ++ [v]) \/ (k <> kk /\ m !! k = Some body).
Proof.
  unfold append_to. destruct (decide (kk = k)) as [-> | N].
  - rewrite lookup_insert_eq. intros H. injection H as <-. left. auto.
  - rewrite lookup_insert_ne by exact N. intros H. right. auto.
Qed.

Lemma bucket_ok_mono code v k body :
  bucket_ok code k body -> bucket_ok (code ++ [v]) k body.
Proof.
  intros (Hne & Hin & Hk). split; [exact Hne |]. split.
  - eapply Forall_impl; [exact Hin |]. intros x Hx. apply in_or_app. left. exact Hx.
  - destruct Hk as [-> | (d & Hd & Hf & ->)]; [left; reflexivity |].
    right. exists d. split; [apply in_or_app; left; exact Hd | auto].
Qed.

(** A line appended under an admissible key keeps every bucket
    admissible. *)
Lemma bucket_ok_append code (m : gmap string (list string)) kk v :
  (forall k body, m !! k = Some body -> bucket_ok code k body) ->
  (kk = "BARE_CODE" \/
   exists d, In d (code ++ [v]) /\ isFunctionLine d = true /\ kk = GetFunctionName d) ->
  forall k body, append_to m kk v !! k = Some body -> bucket_ok (code ++ [v]) k body.
Proof.
  intros IH Hkk k body H.
  apply lookup_append_to in H as [[-> ->] | [_ H]];
    [| apply bucket_ok_mono, IH, H].
  split; [intros E; apply app_eq_nil in E as [_ E]; discriminate |].
  split; [| exact Hkk].
  apply Forall_app. split.
  - destruct (m !! kk) as [old |] eqn:L; cbn [default]; [| constructor].
    destruct (IH _ _ L) as (_ & Hin & _).
    eapply Forall_impl; [exact Hin |]. intros x Hx. apply in_or_app. left. exact Hx.
  - constructor; [apply in_or_app; right; left; reflexivity | constructor].
Qed.

Lemma scan_invariant code :
  (forall k body, result (scan_after code) !! k = Some body -> bucket_ok code k body) /\
  (flag (scan_after code) = true ->
   exists d, In d code /\ isFunctionLine d = true /\
             funcname (scan_after code) = GetFunctionName d).
Proof.
  induction code as [| v code [IHr IHf]] using rev_ind.
  - split; [intros k body H; cbn in H; rewrite lookup_empty in H; discriminate |].
    intros H. discriminate.
  - rewrite scan_after_snoc. destruct (scan_after code) as [m f fn].
    cbn [result flag funcname] in IHr, IHf.
    assert (Hfn : f = true ->
              exists d, In d (code ++ [v]) /\ isFunctionLine d = true /\ fn = GetFunctionName d).
    { intros Hf. destruct (IHf Hf) as (d & Hd & Hfd & E). exists d.
      split; [apply in_or_app; left; exact Hd | auto]. }
    unfold GetFunctions_step. cbn [result flag funcname].
    destruct f.
    + destruct (MatchString functionEndExp v);
        [destruct (MatchString functionNotEndExp v) |]; cbn [result flag funcname];
        split; try (intros; discriminate); try (intros _; apply Hfn; reflexivity);
        try (apply bucket_ok_append; [exact IHr | right; apply Hfn; reflexivity]).
      intros k body H. apply bucket_ok_mono, IHr, H.
    + destruct (isFunctionLine v) eqn:Fv; cbn [result flag funcname]; split.
      * intros k body H. apply bucket_ok_mono, IHr, H.
      * intros _. exists v. split; [apply in_or_app; right; left; reflexivity | auto].
      * apply bucket_ok_append; [exact IHr | left; reflexivity].
      * intros H. discriminate.
Qed.

End ScannerRuns.

(** X7. Every bucket of the map returned by [GetFunctions] is non-empty,
    holds lines of the input only, and is named [BARE_CODE] or after a
    function line of the input.  A function whose declaration is followed
    at once by its terminator therefore has no bucket. *)
Theorem GetFunctions_buckets code k body :
  GetFunctions code !! k = Some body ->
  body <> [] /\
  Forall (fun v => In v code) body /\
  (k = "BARE_CODE" \/
   exists d, In d code /\ isFunctionLine d = true /\ k = GetFunctionName d).
Proof. intros H. exact (proj1 (scan_invariant code) k body H). Qed.

Lemma GetFunctions_buckets_witness :
  GetFunctions ["foo() {"; "echo hi"; "}"; "bar() {"; "}"] !! "foo" = Some ["echo hi"] /\
  GetFunctions ["foo() {"; "echo hi"; "}"; "bar() {"; "}"] !! "bar" = None /\
  ["echo hi"] <> [].
Proof.
  split; [reflexivity |]. split; [reflexivity |].
  apply (GetFunctions_buckets ["foo() {"; "echo hi"; "}"; "bar() {"; "}"] "foo" ["echo hi"]).
  reflexivity.
Defined.

(** X8. A function block read from outside any function: the declaration
    line and the terminator line are consumed, every line between them that
    is no terminator is appended, in order, to the bucket of the declared
    name (after the lines an earlier block of the same name left there), a
    line between them that looks like a declaration included, and the
    scanner is outside again. *)
Theorem GetFunctions_block pre decl body term :
  flag (scan_after pre) = false ->
  isFunctionLine decl = true ->
  Forall (fun v => is_terminator v = false) body ->
  is_terminator term = true ->
  GetFunctions (pre ++ decl :: body ++ [term])
  = add_body (GetFunctions pre) (GetFunctionName decl) body /\
  flag (scan_after (pre ++ decl :: body ++ [term])) = false.
Proof.
  intros Hout Hdecl Hbody Hterm.
  assert (E : scan_after (pre ++ decl :: body ++ [term])
              = MkScan (add_body (GetFunctions pre) (GetFunctionName decl) body)
                       false EmptyString).
  { rewrite scan_after_app. cbn [fold_left].
    rewrite (outside_declaration _ _ Hout Hdecl), fold_left_app.
    rewrite (inside_run _ _ _ Hbody). cbn [fold_left].
    rewrite GetFunctions_step_terminator by (try reflexivity; exact Hterm).
    reflexivity. }
  unfold GetFunctions at 1. fold (scan_after (pre ++ decl :: body ++ [term])).
  rewrite E. split; reflexivity.
Qed.

Lemma GetFunctions_block_witness :
  GetFunctions (["foo() {"; "a"; "}"] ++ "foo() {" :: ["b"; "bar() {"] ++ ["}"])
  = add_body (GetFunctions ["foo() {"; "a"; "}"]) (GetFunctionName "foo() {") ["b"; "bar() {"] /\
  flag (scan_after (["foo() {"; "a"; "}"] ++ "foo() {" :: ["b"; "bar() {"] ++ ["}"])) = false.
Proof.
  apply (GetFunctions_block ["foo() {"; "a"; "}"] "foo() {" ["b"; "bar() {"] "}").
  - reflexivity.
  - reflexivity.
  - repeat constructor.
  - reflexivity.
Defined.

(** X9. A function that is never terminated takes every line up to the end
    of the input: after a declaration read from outside, lines that are no
    terminators all go to the bucket of the declared name and the scanner
    is still inside at the end. *)
Theorem GetFunctions_unterminated pre decl rest :
  flag (scan_after pre) = false ->
  isFunctionLine decl = true ->
  Forall (fun v => is_terminator v = false) rest ->
  GetFunctions (pre ++ decl :: rest)
  = add_body (GetFunctions pre) (GetFunctionName decl) rest /\
  flag (scan_after (pre ++ decl :: rest)) = true /\
  funcname (scan_after (pre ++ decl :: rest)) = GetFunctionName decl.
Proof.
  intros Hout Hdecl Hrest.
  assert (E : scan_after (pre ++ decl :: rest)
              = MkScan (add_body (GetFunctions pre) (GetFunctionName decl) rest)
                       true (GetFunctionName decl)).
  { rewrite scan_after_app. cbn [fold_left].
    rewrite (outside_declaration _ _ Hout Hdecl). apply inside_run, Hrest. }
  unfold GetFunctions at 1. fold (scan_after (pre ++ decl :: rest)).
  rewrite E. repeat split.
Qed.

Lemma GetFunctions_unterminated_witness :
  GetFunctions (["x=1"] ++ "foo() {" :: ["echo hi"; "y=2"])
  = add_body (GetFunctions ["x=1"]) (GetFunctionName "foo() {") ["echo hi"; "y=2"] /\
  flag (scan_after (["x=1"] ++ "foo() {" :: ["echo hi"; "y=2"])) = true /\
  funcname (scan_after (["x=1"] ++ "foo() {" :: ["echo hi"; "y=2"])) = GetFunctionName "foo() {".
Proof.
  apply (GetFunctions_unterminated ["x=1"] "foo() {" ["echo hi"; "y=2"]).
  - reflexivity.
  - reflexivity.
  - repeat constructor.
Defined.

(** ** The code filter and the file-level counts *)

Section MoreCounts.

Lemma count_le_length {A} (p : A -> bool) l : count p l <= Z.of_nat (length l).
Proof.
  induction l as [| v l IH]; [reflexivity |].
  rewrite count_cons. simpl length. destruct (p v); lia.
Qed.

Lemma filter_filter {A} (p : A -> bool) l :
  List.filter p (List.filter p l) = List.filter p l.
Proof.
  induction l as [| v l IH]; [reflexivity |].
  cbn [List.filter]. destruct (p v) eqn:E; [| exact IH].
  cbn [List.filter]. rewrite E, IH. reflexivity.
Qed.

Lemma count_tail_le {A} (p : A -> bool) l : count p (tail l) <= count p l.
Proof.
  destruct l as [| v l]; [reflexivity |]. cbn [tail]. rewrite count_cons.
  destruct (p v); lia.
Qed.

(** The code count of a file against the length of the filtered lines. *)
Lemma GetCodeLines_GetCodes_eq fc :
  GetCodeLines fc
  = Z.of_nat (length (GetCodes (Lines fc)))
    + match Lines fc with
      | v :: _ => if isCommentLine v then 1 else 0
      | [] => 0
      end.
Proof.
  unfold GetCodeLines. cbv zeta.
  rewrite GetBlankLines_count, GetCommentLines_tail. unfold GetLines.
  pose proof (lines_partition (Lines fc)) as P.
  destruct (Lines fc) as [| v rest]; [reflexivity |].
  cbn [tail]. rewrite !count_cons in P. rewrite count_cons.
  destruct (isCommentLine v), (isBlankLine v); lia.
Qed.

End MoreCounts.

(** X10. [GetCodes] keeps exactly the lines that are neither comment lines
    nor blank, works line by line (the filter of a concatenation is the
    concatenation of the filters) and changes nothing when applied to its
    own result. *)
Theorem GetCodes_filter_laws :
  forall a b,
    GetCodes (a ++ b) = GetCodes a ++ GetCodes b /\
    GetCodes (GetCodes a) = GetCodes a /\
    (forall v, In v (GetCodes a) <->
               In v a /\ isCommentLine v = false /\ isBlankLine v = false).
Proof.
  intros a b. rewrite !GetCodes_filter. split; [apply List.filter_app |].
  split; [apply filter_filter |].
  intros v. rewrite List.filter_In. unfold is_code.
  rewrite andb_true_iff, !negb_true_iff. reflexivity.
Qed.

(** X11. The counts of a file are within bounds: none is negative, the
    code count included, blank and comment lines together do not exceed
    the number of lines, and neither do the function lines. *)
Theorem file_counts_bounds :
  forall fc,
    0 <= GetBlankLines fc /\
    0 <= GetCommentLines fc /\
    0 <= GetCodeLines fc <= GetLines fc /\
    GetBlankLines fc + GetCommentLines fc <= GetLines fc /\
    0 <= GetFunctionLines fc <= GetLines fc.
Proof.
  intros fc.
  pose proof (GetCodeLines_GetCodes_eq fc) as E.
  assert (0 <= GetCodeLines fc).
  { rewrite E. destruct (Lines fc) as [| v rest]; [lia |].
    destruct (isCommentLine v); lia. }
  pose proof (count_nonneg isBlankLine (Lines fc)).
  pose proof (count_nonneg isCommentLine (tail (Lines fc))).
  pose proof (count_nonneg isFunctionLine (Lines fc)).
  pose proof (count_le_length isFunctionLine (Lines fc)).
  rewrite <- GetBlankLines_count in *. rewrite <- GetCommentLines_tail in *.
  rewrite <- GetFunctionLines_count in *.
  unfold GetCodeLines in *. cbv zeta in *. unfold GetLines in *. lia.
Qed.

(** X12. The code count of a file is the number of lines [GetCodes] keeps,
    plus one when the first line is a comment line. *)
Theorem GetCodeLines_vs_GetCodes :
  forall fc,
    GetCodeLines fc
    = Z.of_nat (length (GetCodes (Lines fc)))
      + match Lines fc with
        | v :: _ => if isCommentLine v then 1 else 0
        | [] => 0
        end.
Proof. exact GetCodeLines_GetCodes_eq. Qed.

(** ** [CalculateCCN] *)

Section MoreCCN.

Lemma sumZ_cons {A} (f : A -> Z) v l : sumZ f (v :: l) = f v + sumZ f l.
Proof. reflexivity. Qed.

Lemma sumZ_app {A} (f : A -> Z) a b : sumZ f (a ++ b) = sumZ f a + sumZ f b.
Proof.
  induction a as [| v a IH]; [reflexivity |].
  cbn [app]. rewrite !sumZ_cons, IH. lia.
Qed.

Lemma sumZ_Permutation {A} (f : A -> Z) a b :
  Permutation a b -> sumZ f a = sumZ f b.
Proof.
  induction 1 as [| x l l' _ IH | x y l | l l' l'' _ IH1 _ IH2];
    rewrite ?sumZ_cons; lia.
Qed.

Lemma CalculateCCN_fold_increment code : forall r,
  fold_left CalculateCCN_step code r = r + sumZ line_increment code.
Proof.
  induction code as [| v code IH]; intros r; cbn [fold_left].
  - cbn. lia.
  - rewrite IH, CalculateCCN_step_spec, condition_hits_tokens, sumZ_cons.
    unfold line_increment at 2.
    destruct (quote_excepted v); lia.
Qed.

Lemma search_quote_needs_quote q kw s :
  search (seq [Star Dot; Lit q; Star Dot; Str kw]) s = true -> In q s.
Proof.
  cbn [seq]. rewrite search_spec.
  intros (pre & w & post & -> & H).
  apply lang_Cat_inv in H as (w1 & w' & -> & _ & H).
  apply lang_Cat_inv in H as (w2 & w'' & -> & Hq & _).
  apply lang_Lit_inv in Hq as ->.
  apply in_or_app. right. apply in_or_app. left.
  apply in_or_app. right. left. reflexivity.
Qed.

(** [NotCcnExp] needs a quote on the line. *)
Lemma NotCcnExp_needs_quote v :
  MatchString NotCcnExp v = true -> In squote (chars v) \/ In dquote (chars v).
Proof.
  unfold MatchString, NotCcnExp. cbn [bol body alts].
  rewrite !search_Alt, !orb_true_iff.
  intros [H | [H | [H | [H | [H | H]]]]]; apply search_quote_needs_quote in H; auto.
Qed.

End MoreCCN.

(** X13. The result of [CalculateCCN] is one plus the sum of what each line
    adds on its own: the result for a concatenation is the sum of the two
    results minus one, and reordering the lines does not change it. *)
Theorem CalculateCCN_additive :
  forall a b,
    CalculateCCN a = 1 + sumZ line_increment a /\
    CalculateCCN (a ++ b) = CalculateCCN a + CalculateCCN b - 1 /\
    (Permutation a b -> CalculateCCN a = CalculateCCN b).
Proof.
  intros a b. unfold CalculateCCN. rewrite !CalculateCCN_fold_increment, sumZ_app.
  split; [reflexivity |]. split; [lia |].
  intros P. rewrite (sumZ_Permutation _ _ _ P). reflexivity.
Qed.

(** X14. A line on which the quote exception fires adds nothing at all,
    the connectives it contains included: removing the line leaves the
    result unchanged. *)
Theorem CalculateCCN_excepted_line_ignored pre v post :
  quote_excepted v = true ->
  CalculateCCN (pre ++ v :: post) = CalculateCCN (pre ++ post).
Proof.
  intros H. unfold CalculateCCN.
  rewrite !CalculateCCN_fold_increment, !sumZ_app, sumZ_cons.
  unfold line_increment at 2. rewrite H. lia.
Qed.

Lemma CalculateCCN_excepted_line_ignored_witness :
  quote_excepted "echo 'if' && a || b" = true /\
  tokens_with_connective "echo 'if' && a || b" = 2 /\
  CalculateCCN (["x=1"] ++ "echo 'if' && a || b" :: ["y=2"]) = CalculateCCN (["x=1"] ++ ["y=2"]).
Proof.
  split; [reflexivity |]. split; [reflexivity |].
  apply (CalculateCCN_excepted_line_ignored ["x=1"] "echo 'if' && a || b" ["y=2"]).
  reflexivity.
Defined.

(** X15. On a line without any quote character the keyword test is a plain
    substring test: the line adds one for the keywords exactly when [if],
    [while], [for] or the case terminator occurs anywhere in it, inside a
    longer word included, and one more per element that contains a
    connective. *)
Theorem CalculateCCN_unquoted_line v :
  Contains v SQ = false -> Contains v DQ = false ->
  CalculateCCN [v]
  = 1 + (if Contains v "if" || (Contains v "while" || (Contains v "for" || Contains v ";;"))
         then 1 else 0)
      + tokens_with_connective v.
Proof.
  intros Hs Hd. apply Contains_char_false in Hs, Hd.
  assert (N : MatchString NotCcnExp v = false).
  { destruct (MatchString NotCcnExp v) eqn:E; [| reflexivity].
    apply NotCcnExp_needs_quote in E as [E | E]; contradiction. }
  unfold CalculateCCN. rewrite CalculateCCN_fold_increment, sumZ_cons.
  change (sumZ line_increment []) with 0.
  unfold line_increment, quote_excepted, keyword_hit.
  rewrite N, andb_false_r, ccnExp_spec. lia.
Qed.

Lemma CalculateCCN_unquoted_line_witness :
  CalculateCCN ["diff a b"] = 1 + 1 + 0.
Proof.
  apply (CalculateCCN_unquoted_line "diff a b"); reflexivity.
Defined.

(** ** Terminators, comments and the size of the map *)

Section MoreScanner.

Ltac norm_apps :=
  repeat first [ rewrite <- app_assoc | progress cbn [app] ]; try reflexivity.

Lemma lang_Star_Dot w :
  lang (Star Dot) w <-> Forall (fun c => is_dot c = true) w.
Proof.
  split.
  - intros H. remember (Star Dot) as r eqn:E.
    induction H as [ | | | | | | | | r w1 w2 H1 _ _ IH2 ]; try discriminate.
    + constructor.
    + injection E as ->. inversion H1; subst. constructor; [assumption | auto].
  - induction 1 as [| c w Hc _ IH].
    + constructor.
    + change (c :: w) with ([c] ++ w). constructor; [constructor; exact Hc | exact IH].
Qed.

Lemma search_quote_brace q l :
  search (seq [Star Dot; Lit q; Star Dot; Lit "}"; Star Dot]) l = true <->
  exists a b c, l = a ++ q :: b ++ "}"%char :: c /\ Forall (fun x => is_dot x = true) b.
Proof.
  cbn [seq]. rewrite search_spec. split.
  - intros (p & w & post & -> & H).
    apply lang_Cat_inv in H as (d1 & w1 & -> & _ & H).
    apply lang_Cat_inv in H as (q' & w2 & -> & Hq & H). apply lang_Lit_inv in Hq as ->.
    apply lang_Cat_inv in H as (d2 & w3 & -> & H2 & H).
    apply lang_Cat_inv in H as (b' & d3 & -> & Hb & _). apply lang_Lit_inv in Hb as ->.
    apply lang_Star_Dot in H2.
    exists (p ++ d1), d2, (d3 ++ post). split; [norm_apps | exact H2].
  - intros (a & b & c & -> & Hb).
    exists a, ([] ++ [q] ++ b ++ ["}"%char] ++ []), c. split; [norm_apps |].
    repeat (constructor; try (apply lang_Star_Dot; assumption)).
Qed.

Lemma functionNotEndExp_spec v :
  MatchString functionNotEndExp v = true <-> quote_before_brace (chars v).
Proof.
  unfold MatchString, functionNotEndExp, quote_before_brace. cbn [bol body alts].
  rewrite search_Alt, orb_true_iff, !search_quote_brace. split.
  - intros [(a & b & c & E & H) | (a & b & c & E & H)].
    + exists a, squote, b, c. auto.
    + exists a, dquote, b, c. auto.
  - intros (a & q & b & c & E & [-> | ->] & H); [left | right]; eauto.
Qed.

Lemma skip_space_app ws c t :
  Forall (fun x => is_space x = true) ws -> is_space c = false ->
  skip_space (ws ++ c :: t) = c :: t.
Proof.
  intros H Hc. induction H as [| x ws Hx _ IH]; cbn [app skip_space].
  - rewrite Hc. reflexivity.
  - rewrite Hx. exact IH.
Qed.

Lemma skip_space_spec l : forall c t,
  skip_space l = c :: t ->
  exists ws, l = ws ++ c :: t /\ Forall (fun x => is_space x = true) ws.
Proof.
  induction l as [| x l IH]; intros c t; cbn [skip_space]; [discriminate |].
  destruct (is_space x) eqn:E.
  - intros H. destruct (IH _ _ H) as (ws & -> & Hws).
    exists (x :: ws). split; [reflexivity | constructor; assumption].
  - intros H. injection H as -> ->. exists []. split; [reflexivity | constructor].
Qed.

Lemma total_lines_append_to (m : gmap string (list string)) k v :
  total_lines (append_to m k v) = total_lines m + 1.
Proof.
  unfold append_to, total_lines. destruct (m !! k) as [old |] eqn:L; cbn [default].
  - rewrite <- insert_delete_eq.
    rewrite (sumZ_Permutation _ _ _
               (map_to_list_insert (delete k m) k (old ++ [v]) (lookup_delete_eq m k))).
    rewrite <- (sumZ_Permutation _ _ _ (map_to_list_delete m k old L)).
    rewrite !sumZ_cons. cbn [snd]. rewrite length_app. cbn [length]. lia.
  - rewrite (sumZ_Permutation _ _ _ (map_to_list_insert m k ([] ++ [v]) L)).
    rewrite sumZ_cons. cbn [snd app length]. lia.
Qed.

Lemma total_lines_step st v :
  total_lines (result (GetFunctions_step st v)) <= total_lines (result st) + 1.
Proof.
  unfold GetFunctions_step.
  destruct (flag st); [destruct (MatchString functionEndExp v);
    [destruct (MatchString functionNotEndExp v) |] | destruct (isFunctionLine v)];
    cbn [result]; rewrite ?total_lines_append_to; lia.
Qed.

Lemma total_lines_scan code :
  total_lines (result (scan_after code)) <= Z.of_nat (length code).
Proof.
  induction code as [| v code IH] using rev_ind.
  - cbn. unfold total_lines. rewrite map_to_list_empty. cbn. lia.
  - rewrite scan_after_snoc, length_app. cbn [length].
    pose proof (total_lines_step (scan_after code) v). lia.
Qed.

End MoreScanner.

(** X16. A line is a terminator for the scanner exactly when it contains a
    closing brace and no quote, single or double, stands before a closing
    brace of the line (with no newline between the two). *)
Theorem is_terminator_iff :
  forall v,
    is_terminator v = true <->
    In "}"%char (chars v) /\ ~ quote_before_brace (chars v).
Proof.
  intros v. unfold is_terminator.
  rewrite andb_true_iff, negb_true_iff, functionEndExp_spec, <- functionNotEndExp_spec.
  destruct (MatchString functionNotEndExp v); split; intros [H1 H2];
    split; try assumption; try discriminate; try reflexivity.
  exfalso. apply H2. reflexivity.
Qed.

(** X17. While a function is being read, a line in which a quote stands
    before a closing brace does not end the function: the line is appended
    to the body and the scanner stays inside. *)
Theorem GetFunctions_quoted_brace_kept code v :
  flag (scan_after code) = true ->
  quote_before_brace (chars v) ->
  GetFunctions (code ++ [v])
  = append_to (GetFunctions code) (funcname (scan_after code)) v /\
  flag (scan_after (code ++ [v])) = true /\
  funcname (scan_after (code ++ [v])) = funcname (scan_after code).
Proof.
  intros Hf Hq.
  assert (Ht : is_terminator v = false).
  { unfold is_terminator. apply functionNotEndExp_spec in Hq. rewrite Hq.
    apply andb_false_r. }
  unfold GetFunctions. fold (scan_after (code ++ [v])). fold (scan_after code).
  rewrite scan_after_snoc. destruct (scan_after code) as [m f fn].
  cbn [flag] in Hf. subst f. rewrite (inside_step _ _ _ Ht). repeat split.
Qed.

Lemma GetFunctions_quoted_brace_kept_witness :
  GetFunctions (["foo() {"] ++ ["echo '}'"])
  = append_to (GetFunctions ["foo() {"]) (funcname (scan_after ["foo() {"])) "echo '}'" /\
  flag (scan_after (["foo() {"] ++ ["echo '}'"])) = true /\
  funcname (scan_after (["foo() {"] ++ ["echo '}'"])) = funcname (scan_after ["foo() {"]).
Proof.
  apply (GetFunctions_quoted_brace_kept ["foo() {"] "echo '}'").
  - reflexivity.
  - exists (chars "echo "), squote, [], (chars "'"). repeat split; auto.
Defined.

(** X18. [isCommentLine] looks at the first byte of the line that is not
    white space (tab, newline, form feed, carriage return, space): the line
    is a comment line exactly when that byte exists and is a hash sign. *)
Theorem isCommentLine_first_byte :
  forall line,
    isCommentLine line
    = match skip_space (chars line) with
      | c :: _ => Ascii.eqb "#" c
      | [] => false
      end.
Proof.
  intros line. apply eq_true_iff_eq. rewrite isCommentLine_spec. split.
  - intros (ws & rest & -> & H). rewrite (skip_space_app _ _ _ H); reflexivity.
  - destruct (skip_space (chars line)) as [| c t] eqn:S; [discriminate |].
    intros E. apply Ascii.eqb_eq in E as <-.
    apply skip_space_spec in S as (ws & E & H). eauto.
Qed.

(** X19. Every step of [GetFunctions] appends at most one line to the
    map: the buckets together hold no more lines than the input has. *)
Theorem GetFunctions_total_lines :
  forall code, total_lines (GetFunctions code) <= Z.of_nat (length code).
Proof. exact total_lines_scan. Qed.
